(** * pygamry, measure_scripts/charge_hybrid.py: the charge/discharge controller

    A shallow embedding of the script's control logic: the optional
    conditioning step, the bounded cycling loop with its four stop checks and
    its stop branch, and the potentiostatic voltage finish with its
    sign-dependent current cutoffs.

    Python floats are IEEE 754 binary64 numbers; they are modelled by the
    standard library's executable [spec_float] at precision 53 and maximal
    exponent 1024, so that multiplication by the current sign, [abs] and the
    comparisons behave as they do in the interpreter (signed zeros, infinities
    and NaN included).  The collaborators of the script (the measurement
    engines, the sequencer, the instrument handle and the wall clock) are not
    part of the script: what they return is an input of the model, what the
    script asks of them is recorded in a trace. *)

From Stdlib Require Import ZArith List Bool String Lia SpecFloat DecimalString.
From Stdlib Require Import DecimalZ.
Import ListNotations.
Open Scope Z_scope.

(** ** Python floats *)

Module F64.

Definition prec : Z := 53.
Definition emax : Z := 1024.

Definition float : Type := spec_float.

(** [x * y], [x - y], [abs(x)], [-x] *)
Definition mul (x y : float) : float := SFmul prec emax x y.
Definition sub (x y : float) : float := SFsub prec emax x y.
Definition abs (x : float) : float := SFabs x.
Definition opp (x : float) : float := SFopp x.

(** [x <= y], [x < y], [x >= y], [x > y], [x == y]: every comparison with a
    NaN is false *)
Definition leb (x y : float) : bool := SFleb x y.
Definition ltb (x y : float) : bool := SFltb x y.
Definition geb (x y : float) : bool := SFleb y x.
Definition gtb (x y : float) : bool := SFltb y x.
Definition eqb (x y : float) : bool := SFeqb x y.

(** The values a Python float can hold: NaN, the infinities, the zeros and the
    finite numbers whose mantissa and exponent fit binary64. *)
Definition valid (x : float) : bool := valid_binary prec emax x.

Definition is_nan (x : float) : bool :=
  match x with S754_nan => true | _ => false end.

(** A number: neither NaN nor an infinity. *)
Definition is_finite (x : float) : bool :=
  match x with
  | S754_zero _ | S754_finite _ _ _ => true
  | S754_infinity _ | S754_nan => false
  end.

Definition is_zero (x : float) : bool :=
  match x with S754_zero _ => true | _ => false end.

(** Literals, as [float.hex] prints them:
    1.0 = 0x1.0000000000000p+0, 0.005 = 0x1.47ae147ae147bp-8,
    0.01 = 0x1.47ae147ae147bp-7, 600.0 = 0x1.2c00000000000p+9,
    3600.0 = 0x1.c200000000000p+11, 2.0 = 0x1.0000000000000p+1,
    0.001 = 0x1.0624dd2f1a9fcp-10. *)
Definition zero : float := S754_zero false.
Definition one : float := S754_finite false 4503599627370496 (-52).
Definition neg_one : float := S754_finite true 4503599627370496 (-52).
Definition two : float := S754_finite false 4503599627370496 (-51).
Definition f0_005 : float := S754_finite false 5764607523034235 (-60).
Definition f0_01 : float := S754_finite false 5764607523034235 (-59).
Definition f0_001 : float := S754_finite false 4611686018427388 (-62).
Definition f600 : float := S754_finite false 5277655813324800 (-43).
Definition f3600 : float := S754_finite false 7916483719987200 (-41).
(** 1e9 = 0x1.dcd6500000000p+29 and 2.0**63 = 0x1.0000000000000p+63 *)
Definition f1e9 : float := S754_finite false 8388608000000000 (-23).
Definition f2p63 : float := S754_finite false 4503599627370496 11.
Definition infinity : float := S754_infinity false.
Definition nan : float := S754_nan.

(** [numpy.sign] on a float: -1 if x < 0, 0 if x == 0, 1 if x > 0, and NaN
    for NaN (numpy computes
    [x > 0 ? 1 : (x < 0 ? -1 : (x == 0 ? 0 : x))]). *)
Definition np_sign (x : float) : float :=
  if gtb x zero then one
  else if ltb x zero then neg_one
  else if eqb x zero then zero
  else x.

End F64.

Import F64.

(** ** Run configuration: the parsed command line *)

Record args : Type := {
  (* argc.common_args and argc.hybrid_args, as far as the script reads them *)
  data_path : string;
  file_suffix : string;
  kst_path : option string;
  hybrid_i_init : float;
  hybrid_rest_time : float;
  (* the script's own arguments *)
  condition_time : float;
  condition_t_sample : float;
  max_repeats : Z;
  duration : float;
  stop_v_min : float;
  stop_v_max : float;
  voltage_finish : bool;
  finish_v : float;
  finish_i_thresh : float;
  finish_i_max : float;
  finish_t_sample : float;
  finish_duration : float;
  finish_rest_time : float
}.

(** A configuration with the parser's defaults (lines 18-31) for everything
    but the arguments named here; [hybrid_rest_time] and the paths are
    declared in [arg_config] and are fixed to arbitrary values. *)
Definition make_args (i_init cond_time : float) (repeats : Z) (vfinish : bool)
    (fin_v fin_i_thresh fin_i_max : float) : args := {|
  data_path := "."; file_suffix := "run"; kst_path := None;
  hybrid_i_init := i_init; hybrid_rest_time := zero;
  condition_time := cond_time; condition_t_sample := f0_001;
  max_repeats := repeats; duration := f3600;
  stop_v_min := neg_one; stop_v_max := one;
  voltage_finish := vfinish; finish_v := fin_v;
  finish_i_thresh := fin_i_thresh; finish_i_max := fin_i_max;
  finish_t_sample := one; finish_duration := f3600;
  finish_rest_time := two
|}.

(** All defaults: no conditioning, one cycle, no voltage finish. *)
Definition default_args (i_init : float) : args :=
  make_args i_init zero 1 false zero f0_005 one.

(** ** The collaborators *)

(** The instrument session handle [pstat]. *)
Record pstat_state : Type := { is_open : bool; cell_on : bool }.

(** [pstat.SetCell(GamryCOM.CellOff)] and [pstat.Close()] *)
Definition SetCell_CellOff (p : pstat_state) : pstat_state :=
  {| is_open := is_open p; cell_on := false |}.
Definition Close (p : pstat_state) : pstat_state :=
  {| is_open := false; cell_on := cell_on p |}.

(** The sequencer summary the script reads after a hybrid measurement. *)
Record sequencer : Type := {
  meas_v_min : float;
  meas_v_max : float;
  meas_v_end : float
}.

(** What the world outside the script does during one run: the state the
    instrument handle is obtained in, the state the conditioning run leaves
    it in, what the n-th call of [rf.run_hybrid] leaves in the sequencer and
    in the instrument handle, the state the potentiostatic run leaves the
    handle in, what [time.time()] reads at the start and in the n-th cycle,
    and which lengths of a wait the platform's clock can take. *)
Record environment : Type := {
  pstat_initial : pstat_state;
  pstat_after_chrono : pstat_state;
  seq_after_hybrid : Z -> sequencer;
  pstat_after_hybrid : Z -> pstat_state;
  pstat_after_pstatic : pstat_state;
  time_at_start : float;
  time_in_cycle : Z -> float;
  sleep_in_range : float -> bool
}.

(** [time.sleep(seconds)] returns, after the wait, or raises: [ValueError]
    for a NaN and for a negative length, [OverflowError] (or [OSError]) for a
    length beyond the range of the platform's clock, which an infinite one
    always is; where that range ends for a finite length differs between
    platforms and is the environment's.  -0.0 is not negative. *)
Definition time_sleep_returns (env : environment) (seconds : float) : bool :=
  negb (is_nan seconds) && geb seconds zero && is_finite seconds
  && sleep_in_range env seconds.

(** The range CPython checks before it waits: the length in nanoseconds,
    [seconds * 1e9], is below 2**63. *)
Definition cpython_sleep_range (seconds : float) : bool :=
  ltb (mul seconds f1e9) f2p63.

(** [os.path.join(directory, name)] *)
Record path : Type := { directory : string; name : string }.

(** The [print] calls of the script, with the values they format. *)
Inductive message : Type :=
| MsgConditioning (i_init t : float)
| MsgBeginCycle (n : Z)
| MsgBelowLow (v threshold : float)
| MsgAboveHigh (v threshold : float)
| MsgFinishReached (v threshold : float)
| MsgDurationReached (elapsed target : float)
| MsgRestBetween (t : float)
| MsgRestBeforeFinish (t : float)
| MsgFinishLimits (i_min i_max : float).

(** What the script asks of its collaborators, in the order it does.
    [Sleep] is a wait that was made; [SleepRaises] is a call of [time.sleep]
    that raised: the script catches nothing, so it ends there. *)
Inductive event : Type :=
| Print (m : message)
| ChronoRun (s_init t_step t_sample : float) (leave_on : bool)
    (result_file : path) (kst_file : option path)
| RunHybrid (suffix : string) (start_with_cell_off leave_cell_on : bool)
| TestIsOpen (answer : bool)
| SetCellOff
| ClosePstat
| Sleep (seconds : float)
| SleepRaises (seconds : float)
| PstaticRun (v t_duration t_sample i_min i_max : float)
    (result_file : path) (kst_file : option path).

(** ** The script *)

(** The variables of the script that change while it runs, the state of the
    collaborators it shares, and the trace so far (oldest event first). *)
Record state : Type := {
  start_with_cell_off : bool;
  leave_cell_on : bool;
  pstat : pstat_state;
  seq : sequencer;
  trace : list event
}.

Definition emit (es : list event) (st : state) : state :=
  {| start_with_cell_off := start_with_cell_off st;
     leave_cell_on := leave_cell_on st;
     pstat := pstat st; seq := seq st;
     trace := trace st ++ es |}.

Definition set_start_with_cell_off (b : bool) (st : state) : state :=
  {| start_with_cell_off := b;
     leave_cell_on := leave_cell_on st;
     pstat := pstat st; seq := seq st; trace := trace st |}.

Definition set_leave_cell_on (b : bool) (st : state) : state :=
  {| start_with_cell_off := start_with_cell_off st;
     leave_cell_on := b;
     pstat := pstat st; seq := seq st; trace := trace st |}.

Definition set_pstat (p : pstat_state) (st : state) : state :=
  {| start_with_cell_off := start_with_cell_off st;
     leave_cell_on := leave_cell_on st;
     pstat := p; seq := seq st; trace := trace st |}.

Definition set_seq (s : sequencer) (st : state) : state :=
  {| start_with_cell_off := start_with_cell_off st;
     leave_cell_on := leave_cell_on st;
     pstat := pstat st; seq := s; trace := trace st |}.

(** [kst_file]: [os.path.join(args.kst_path, "Kst_IVT.DTA")] or [None] *)
Definition kst_file_of (a : args) : option path :=
  match kst_path a with
  | Some d => Some {| directory := d; name := "Kst_IVT.DTA" |}
  | None => None
  end.

(** [i_sign = np.sign(args.hybrid_i_init)] *)
Definition i_sign (a : args) : float := np_sign (hybrid_i_init a).

(** [args.condition_time > 0] *)
Definition conditioning_runs (a : args) : bool := gtb (condition_time a) zero.

(** The conditioning step (lines 50-82). *)
Definition condition (a : args) (env : environment) (st : state) : state :=
  if conditioning_runs a then
    let st := set_start_with_cell_off false st in
    let st := emit [Print (MsgConditioning (hybrid_i_init a) (condition_time a))] st in
    let chrono_file :=
      {| directory := data_path a;
         name := "Conditioning_" ++ file_suffix a ++ ".DTA" |} in
    let st := emit [ChronoRun (hybrid_i_init a) (condition_time a)
                      (condition_t_sample a) true chrono_file (kst_file_of a)] st in
    set_pstat (pstat_after_chrono env) st
  else
    set_start_with_cell_off true st.

(** The suffix of cycle [n] (lines 89-92). *)
Definition cycle_suffix (a : args) (n : Z) : string :=
  if 1 <? max_repeats a
  then (file_suffix a ++ "_Cycle" ++ NilEmpty.string_of_int (Z.to_int n))%string
  else file_suffix a.

(** [rf.run_hybrid(...)] in cycle [n]: the call is recorded with its power
    directives; the engine leaves the sequencer summary and the instrument
    handle as the environment says. *)
Definition run_hybrid (a : args) (env : environment) (n : Z) (st : state) : state :=
  let st := emit [RunHybrid (cycle_suffix a n)
                    (start_with_cell_off st) (leave_cell_on st)] st in
  set_pstat (pstat_after_hybrid env n) (set_seq (seq_after_hybrid env n) st).

(** One [if cond: print(msg); stop = True]. *)
Definition check (cond : bool) (msg : message)
    (acc : bool * list message) : bool * list message :=
  if cond then (true, snd acc ++ [msg]) else acc.

(** The four conditions of lines 114, 122, 131 and 142. *)
Definition low_voltage_breach (a : args) (s : sequencer) : bool :=
  leb (meas_v_min s) (stop_v_min a).

Definition high_voltage_breach (a : args) (s : sequencer) : bool :=
  geb (meas_v_max s) (stop_v_max a).

Definition voltage_finish_reached (a : args) (s : sequencer) : bool :=
  voltage_finish a &&
  geb (mul (meas_v_end s) (i_sign a)) (mul (finish_v a) (i_sign a)).

(** [elapsed = time.time() - start_time] *)
Definition elapsed_time (start_time now : float) : float := sub now start_time.

Definition duration_exceeded (a : args) (elapsed : float) : bool :=
  geb elapsed (duration a).

(** The stop decision (lines 112-149): the flag [stop] and the messages
    printed, in the order they are printed. *)
Definition stop_decision (a : args) (s : sequencer) (elapsed : float)
    : bool * list message :=
  let acc := (false, []) in
  let acc := check (low_voltage_breach a s)
               (MsgBelowLow (meas_v_min s) (stop_v_min a)) acc in
  let acc := check (high_voltage_breach a s)
               (MsgAboveHigh (meas_v_max s) (stop_v_max a)) acc in
  let acc := check (voltage_finish_reached a s)
               (MsgFinishReached (meas_v_end s) (finish_v a)) acc in
  let acc := check (duration_exceeded a elapsed)
               (MsgDurationReached elapsed (duration a)) acc in
  acc.

(** The stop branch (lines 152-155): turn the cell off and close the
    instrument, if it is open. *)
Definition turn_off_and_close (st : state) : state :=
  let answer := is_open (pstat st) in
  let st := emit [TestIsOpen answer] st in
  if answer then
    let st := set_pstat (SetCell_CellOff (pstat st)) (emit [SetCellOff] st) in
    set_pstat (Close (pstat st)) (emit [ClosePstat] st)
  else st.

(** The body of the loop for cycle [n] (lines 87-160); the boolean tells
    whether the loop breaks. *)
Definition cycle (a : args) (env : environment) (n : Z) (st : state)
    : state * bool :=
  let st := emit [Print (MsgBeginCycle n)] st in
  let st := if 0 <? n then set_start_with_cell_off false st else st in
  let st := if n =? max_repeats a - 1 then set_leave_cell_on false st else st in
  let st := run_hybrid a env n st in
  let elapsed := elapsed_time (time_at_start env) (time_in_cycle env n) in
  let '(stop, msgs) := stop_decision a (seq st) elapsed in
  let st := emit (map Print msgs) st in
  if stop then (turn_off_and_close st, true)
  else (emit [Print (MsgRestBetween (hybrid_rest_time a))] st, false).

(** [for n in ns: ...], left by [break] when a cycle stops. *)
Fixpoint cycles (a : args) (env : environment) (ns : list Z) (st : state)
    : state :=
  match ns with
  | [] => st
  | n :: ns' =>
      let '(st', stop) := cycle a env n st in
      if stop then st' else cycles a env ns' st'
  end.

(** [range(stop)]: [0, 1, ..., stop - 1], empty when [stop <= 0]. *)
Definition range (stop : Z) : list Z := map Z.of_nat (List.seq 0 (Z.to_nat stop)).

(** The current cutoffs of the voltage finish (lines 183-188). *)
Definition current_cutoffs (sign thresh i_max_arg : float) : float * float :=
  if gtb sign zero then
    (abs thresh, abs i_max_arg)
  else
    (mul (abs i_max_arg) sign, mul (abs thresh) sign).

(** The voltage finish (lines 163-203).  When [time.sleep] raises (line
    169) nothing of lines 171-203 is executed. *)
Definition finish (a : args) (env : environment) (st : state) : state :=
  if voltage_finish a then
    let st := emit [Print (MsgRestBeforeFinish (finish_rest_time a))] st in
    if time_sleep_returns env (finish_rest_time a) then
      let st := emit [Sleep (finish_rest_time a)] st in
      let pstatic_file :=
        {| directory := data_path a;
           name := "PSTATIC-FINISH_" ++ file_suffix a ++ ".DTA" |} in
      let '(i_min, i_max) :=
        current_cutoffs (i_sign a) (finish_i_thresh a) (finish_i_max a) in
      let st :=
        emit [Print (MsgFinishLimits i_min i_max);
              PstaticRun (finish_v a) (finish_duration a) (finish_t_sample a)
                i_min i_max pstatic_file (kst_file_of a)] st in
      set_pstat (pstat_after_pstatic env) st
    else
      emit [SleepRaises (finish_rest_time a)] st
  else st.

(** The state the script starts in: nothing asked yet, the instrument handle
    as [get_pstat()] returns it.  [start_with_cell_off] is unbound until the
    conditioning step assigns it in either branch; [leave_cell_on] is
    assigned [True] before the loop (line 85). *)
Definition initial_state (env : environment) : state :=
  {| start_with_cell_off := true;
     leave_cell_on := true;
     pstat := pstat_initial env;
     seq := {| meas_v_min := zero; meas_v_max := zero; meas_v_end := zero |};
     trace := [] |}.

(** The state when the cycling loop is left. *)
Definition after_loop (a : args) (env : environment) : state :=
  let st := condition a env (initial_state env) in
  let st := set_leave_cell_on true st in
  cycles a env (range (max_repeats a)) st.

(** The whole script. *)
Definition main (a : args) (env : environment) : state :=
  finish a env (after_loop a env).

(** ** Reading a trace *)

(** The power directives of the hybrid invocations, in order:
    (start_with_cell_off, leave_cell_on). *)
Fixpoint hybrid_calls (tr : list event) : list (bool * bool) :=
  match tr with
  | [] => []
  | RunHybrid _ s l :: tr' => (s, l) :: hybrid_calls tr'
  | _ :: tr' => hybrid_calls tr'
  end.

Definition is_chrono_run (e : event) : bool :=
  match e with ChronoRun _ _ _ _ _ _ => true | _ => false end.

Definition is_finish_event (e : event) : bool :=
  match e with
  | PstaticRun _ _ _ _ _ _ _ | Sleep _
  | Print (MsgRestBeforeFinish _) | Print (MsgFinishLimits _ _) => true
  | _ => false
  end.

Definition is_pstat_command (e : event) : bool :=
  match e with
  | TestIsOpen _ | SetCellOff | ClosePstat => true
  | _ => false
  end.

Definition is_stop_message (e : event) : bool :=
  match e with
  | Print (MsgBelowLow _ _) | Print (MsgAboveHigh _ _)
  | Print (MsgFinishReached _ _) | Print (MsgDurationReached _ _) => true
  | _ => false
  end.

(** Whether the stop decision of cycle [n] says stop, in environment [env]. *)
Definition stop_fires (a : args) (env : environment) (n : Z) : bool :=
  fst (stop_decision a (seq_after_hybrid env n)
         (elapsed_time (time_at_start env) (time_in_cycle env n))).

(** ** What a run prints and asks, cycle by cycle

    These describe the trace of the script in closed form; the theorems below
    relate them to [cycle], [cycles] and [main]. *)

(** The power directives cycle [n] passes to the hybrid measurement. *)
Definition directives (a : args) (n : Z) : bool * bool :=
  ((n =? 0) && negb (conditioning_runs a), negb (n =? max_repeats a - 1)).

(** The cycles that are run: those of [ns] up to and including the first one
    whose stop decision says stop. *)
Fixpoint run_until_stop (a : args) (env : environment) (ns : list Z) : list Z :=
  match ns with
  | [] => []
  | n :: ns' => if stop_fires a env n then [n] else n :: run_until_stop a env ns'
  end.

(** The events of the stop branch, on an instrument in state [p]. *)
Definition stop_branch_events (p : pstat_state) : list event :=
  TestIsOpen (is_open p) :: (if is_open p then [SetCellOff; ClosePstat] else []).

(** The events of cycle [n], run with directives [s] and [l]. *)
Definition cycle_events (a : args) (env : environment) (n : Z) (s l : bool)
    : list event :=
  let elapsed := elapsed_time (time_at_start env) (time_in_cycle env n) in
  [Print (MsgBeginCycle n); RunHybrid (cycle_suffix a n) s l]
  ++ map Print (snd (stop_decision a (seq_after_hybrid env n) elapsed))
  ++ (if stop_fires a env n then stop_branch_events (pstat_after_hybrid env n)
      else [Print (MsgRestBetween (hybrid_rest_time a))]).

Definition cycle_events_at (a : args) (env : environment) (n : Z) : list event :=
  cycle_events a env n (fst (directives a n)) (snd (directives a n)).

(** The events of the conditioning step. *)
Definition conditioning_events (a : args) : list event :=
  if conditioning_runs a then
    [Print (MsgConditioning (hybrid_i_init a) (condition_time a));
     ChronoRun (hybrid_i_init a) (condition_time a) (condition_t_sample a) true
       {| directory := data_path a;
          name := "Conditioning_" ++ file_suffix a ++ ".DTA" |} (kst_file_of a)]
  else [].

(** The events of the voltage finish, when it is enabled: what follows the
    wait, and the whole stage. *)
Definition finish_run_events (a : args) : list event :=
  let band := current_cutoffs (i_sign a) (finish_i_thresh a) (finish_i_max a) in
  [Sleep (finish_rest_time a);
   Print (MsgFinishLimits (fst band) (snd band));
   PstaticRun (finish_v a) (finish_duration a) (finish_t_sample a)
     (fst band) (snd band)
     {| directory := data_path a;
        name := "PSTATIC-FINISH_" ++ file_suffix a ++ ".DTA" |} (kst_file_of a)].

Definition finish_events (a : args) (env : environment) : list event :=
  Print (MsgRestBeforeFinish (finish_rest_time a))
  :: (if time_sleep_returns env (finish_rest_time a)
      then finish_run_events a
      else [SleepRaises (finish_rest_time a)]).

(** The elapsed time the stop decision of cycle [n] sees. *)
Definition elapsed_in_cycle (env : environment) (n : Z) : float :=
  elapsed_time (time_at_start env) (time_in_cycle env n).

(** A magnitude that is a number other than zero. *)
Definition nonzero (x : float) : bool := negb (is_nan x) && negb (is_zero x).

(** ** Example runs *)

Definition pstat_open_on : pstat_state := {| is_open := true; cell_on := true |}.
Definition pstat_closed_on : pstat_state := {| is_open := false; cell_on := true |}.
Definition pstat_closed_off : pstat_state := {| is_open := false; cell_on := false |}.

(** A summary within the default voltage limits, and one at the low limit. *)
Definition quiet_seq : sequencer :=
  {| meas_v_min := zero; meas_v_max := zero; meas_v_end := zero |}.
Definition low_seq : sequencer :=
  {| meas_v_min := neg_one; meas_v_max := zero; meas_v_end := zero |}.

(** No voltage limit is ever reached, no time passes, and every hybrid
    measurement leaves the instrument in state [p]. *)
Definition quiet_env (p : pstat_state) : environment :=
  {| pstat_initial := pstat_closed_off;
     pstat_after_chrono := pstat_open_on;
     seq_after_hybrid := fun _ => quiet_seq;
     pstat_after_hybrid := fun _ => p;
     pstat_after_pstatic := pstat_open_on;
     time_at_start := zero;
     time_in_cycle := fun _ => zero;
     sleep_in_range := cpython_sleep_range |}.

(** The minimum voltage reaches the low limit in cycle [k], and only then. *)
Definition breach_env (k : Z) (p : pstat_state) : environment :=
  {| pstat_initial := pstat_closed_off;
     pstat_after_chrono := pstat_open_on;
     seq_after_hybrid := fun n => if n =? k then low_seq else quiet_seq;
     pstat_after_hybrid := fun _ => p;
     pstat_after_pstatic := pstat_open_on;
     time_at_start := zero;
     time_in_cycle := fun _ => zero;
     sleep_in_range := cpython_sleep_range |}.

(** The clock reads 0 s at the start and in cycle 0, and 3600 s from cycle 1
    on. *)
Definition late_env : environment :=
  {| pstat_initial := pstat_closed_off;
     pstat_after_chrono := pstat_open_on;
     seq_after_hybrid := fun _ => quiet_seq;
     pstat_after_hybrid := fun _ => pstat_open_on;
     pstat_after_pstatic := pstat_open_on;
     time_at_start := zero;
     time_in_cycle := fun n => if n <? 1 then zero else f3600;
     sleep_in_range := cpython_sleep_range |}.

(** A summary within the default voltage limits that ends at voltage [v]. *)
Definition seq_ending (v : float) : sequencer :=
  {| meas_v_min := zero; meas_v_max := zero; meas_v_end := v |}.

(** Voltage finish at 0.0 V with the default cutoffs, for an initial current
    [i_init]. *)
Definition finish_args (i_init : float) : args :=
  make_args i_init zero 1 true zero f0_005 one.

(** ** More readings of a trace *)

(** The output identifiers of the hybrid invocations, in order. *)
Fixpoint hybrid_suffixes (tr : list event) : list string :=
  match tr with
  | [] => []
  | RunHybrid sfx _ _ :: tr' => sfx :: hybrid_suffixes tr'
  | _ :: tr' => hybrid_suffixes tr'
  end.

(** The three events of a cycle whose stop decision does not fire. *)
Definition quiet_cycle_events (a : args) (n : Z) : list event :=
  [Print (MsgBeginCycle n);
   RunHybrid (cycle_suffix a n)
     ((n =? 0) && negb (conditioning_runs a)) (negb (n =? max_repeats a - 1));
   Print (MsgRestBetween (hybrid_rest_time a))].

(** Every measured voltage is NaN, and no time passes. *)
Definition nan_seq : sequencer :=
  {| meas_v_min := S754_nan; meas_v_max := S754_nan; meas_v_end := S754_nan |}.

Definition nan_env : environment :=
  {| pstat_initial := pstat_closed_off;
     pstat_after_chrono := pstat_open_on;
     seq_after_hybrid := fun _ => nan_seq;
     pstat_after_hybrid := fun _ => pstat_open_on;
     pstat_after_pstatic := pstat_open_on;
     time_at_start := zero;
     time_in_cycle := fun _ => zero;
     sleep_in_range := cpython_sleep_range |}.

(** A configuration with another rest before the voltage finish. *)
Definition with_finish_rest_time (t : float) (a : args) : args := {|
  data_path := data_path a; file_suffix := file_suffix a;
  kst_path := kst_path a;
  hybrid_i_init := hybrid_i_init a; hybrid_rest_time := hybrid_rest_time a;
  condition_time := condition_time a;
  condition_t_sample := condition_t_sample a;
  max_repeats := max_repeats a; duration := duration a;
  stop_v_min := stop_v_min a; stop_v_max := stop_v_max a;
  voltage_finish := voltage_finish a; finish_v := finish_v a;
  finish_i_thresh := finish_i_thresh a; finish_i_max := finish_i_max a;
  finish_t_sample := finish_t_sample a;
  finish_duration := finish_duration a;
  finish_rest_time := t
|}.

Definition is_pstatic_run (e : event) : bool :=
  match e with PstaticRun _ _ _ _ _ _ _ => true | _ => false end.

(** * Properties *)

(** ** The script on two runs *)

(** Conditioning for 600 s, two cycles in which nothing stops the run, then
    the voltage finish for a positive current. *)
Example run_with_conditioning_and_finish :
  trace (main (make_args one f600 2 true two f0_005 one)
              (quiet_env pstat_open_on)) =
  [Print (MsgConditioning one f600);
   ChronoRun one f600 f0_001 true
     {| directory := "."; name := "Conditioning_run.DTA" |} None;
   Print (MsgBeginCycle 0);
   RunHybrid "run_Cycle0" false true;
   Print (MsgRestBetween zero);
   Print (MsgBeginCycle 1);
   RunHybrid "run_Cycle1" false false;
   Print (MsgRestBetween zero);
   Print (MsgRestBeforeFinish two);
   Sleep two;
   Print (MsgFinishLimits f0_005 one);
   PstaticRun two f3600 one f0_005 one
     {| directory := "."; name := "PSTATIC-FINISH_run.DTA" |} None].
Proof. reflexivity. Qed.

(** Three cycles configured, the low limit reached in cycle 1 with the
    session open: the third cycle is not run. *)
Example run_stopped_in_second_cycle :
  trace (main (make_args one zero 3 false zero f0_005 one)
              (breach_env 1 pstat_open_on)) =
  [Print (MsgBeginCycle 0);
   RunHybrid "run_Cycle0" true true;
   Print (MsgRestBetween zero);
   Print (MsgBeginCycle 1);
   RunHybrid "run_Cycle1" false true;
   Print (MsgBelowLow neg_one neg_one);
   TestIsOpen true; SetCellOff; ClosePstat].
Proof. reflexivity. Qed.

(** ** Binary64 arithmetic used by the script *)

Section Binary64.

(** Shifting the product of a mantissa with 2^52 right by 52 bits gives the
    mantissa back, exactly. *)
Lemma shr_52_exact (m : positive) :
  iter_pos shr_1 52
    {| shr_m := Zpos (4503599627370496 * m); shr_r := false; shr_s := false |}
  = {| shr_m := Zpos m; shr_r := false; shr_s := false |}.
Proof. reflexivity. Qed.

Lemma digits_mul_2p52 (m : positive) :
  Zpos (digits2_pos (4503599627370496 * m)) = Zpos (digits2_pos m) + 52.
Proof. cbn [Pos.mul digits2_pos]. lia. Qed.

(** Multiplying a binary64 number by +1.0 or -1.0 is exact: only the sign
    changes. *)
Lemma mul_finite_unit (s sy : bool) (m : positive) (e : Z) :
  bounded prec emax m e = true ->
  mul (S754_finite s m e) (S754_finite sy 4503599627370496 (-52))
  = S754_finite (xorb s sy) m e.
Proof.
  intros Hb. unfold bounded, canonical_mantissa in Hb.
  apply andb_true_iff in Hb. destruct Hb as [Hc He].
  apply Z.eqb_eq in Hc.
  unfold mul, SFmul, binary_round_aux.
  rewrite (Pos.mul_comm m).
  unfold shr_fexp at 1.
  cbn [Zdigits2]. rewrite digits_mul_2p52.
  replace (Z.pos (digits2_pos m) + 52 + (e + -52))
    with (Z.pos (digits2_pos m) + e) by lia.
  rewrite Hc. replace (e - (e + -52)) with 52 by lia.
  cbn [shr shr_record_of_loc]. rewrite shr_52_exact.
  cbn [shr_m loc_of_shr_record round_nearest_even].
  unfold shr_fexp. cbn [Zdigits2].
  replace (e + -52 + 52) with e by lia.
  rewrite Hc, Z.sub_diag. cbn [shr shr_record_of_loc shr_m].
  rewrite He. reflexivity.
Qed.

Lemma mul_one_r (x : float) : valid x = true -> mul x one = x.
Proof.
  destruct x as [s|s| |s m e]; intros Hv; try (destruct s; reflexivity).
  - reflexivity.
  - unfold one. rewrite mul_finite_unit by exact Hv. now rewrite xorb_false_r.
Qed.

Lemma mul_neg_one_r (x : float) : valid x = true -> mul x neg_one = opp x.
Proof.
  destruct x as [s|s| |s m e]; intros Hv; try (destruct s; reflexivity).
  - reflexivity.
  - unfold neg_one. rewrite mul_finite_unit by exact Hv. now rewrite xorb_true_r.
Qed.

(** [abs] keeps a float valid, and so does [opp]. *)
Lemma valid_abs (x : float) : valid x = true -> valid (abs x) = true.
Proof. destruct x; auto. Qed.

(** A number times zero is zero, with the sign of the product. *)
Lemma mul_zero_r (x : float) (s : bool) :
  is_finite x = true -> is_zero (mul x (S754_zero s)) = true.
Proof. destruct x; simpl; intros; try discriminate; reflexivity. Qed.

Lemma mul_abs_zero (x : float) :
  is_finite x = true -> mul (abs x) zero = zero.
Proof. destruct x; simpl; intros; try discriminate; reflexivity. Qed.

(** Any two zeros compare equal. *)
Lemma geb_zeros (x y : float) :
  is_zero x = true -> is_zero y = true -> geb x y = true.
Proof. destruct x, y; simpl; intros; try discriminate; reflexivity. Qed.

Ltac compare_cases :=
  repeat match goal with
  | |- context [Z.compare ?a ?b] => destruct (Z.compare_spec a b)
  | H : context [Z.compare ?a ?b] |- _ => destruct (Z.compare_spec a b)
  | |- context [Pos.compare_cont Eq ?a ?b] =>
      change (Pos.compare_cont Eq a b) with (Pos.compare a b);
      destruct (Pos.compare_spec a b)
  | H : context [Pos.compare_cont Eq ?a ?b] |- _ =>
      change (Pos.compare_cont Eq a b) with (Pos.compare a b) in H;
      destruct (Pos.compare_spec a b)
  end.

(** [<=] on floats is transitive (no NaN can take part in a true [<=]). *)
Lemma leb_trans (x y z : float) :
  leb x y = true -> leb y z = true -> leb x z = true.
Proof.
  unfold leb, SFleb, SFcompare.
  destruct x as [sx|sx| |sx mx ex], y as [sy|sy| |sy my ey],
           z as [sz|sz| |sz mz ez];
    try destruct sx; try destruct sy; try destruct sz;
    try reflexivity; try discriminate; intros Hxy Hyz;
    compare_cases; subst; simpl in *;
    try reflexivity; try discriminate; try lia.
Qed.

(** Negating both sides reverses a comparison. *)
Lemma compare_opp (x y : float) :
  SFcompare (opp x) (opp y) = SFcompare y x.
Proof.
  unfold opp, SFopp, SFcompare.
  destruct x as [sx|sx| |sx mx ex], y as [sy|sy| |sy my ey];
    try destruct sx; try destruct sy; try reflexivity; simpl;
    compare_cases; subst; simpl in *;
    try reflexivity; try discriminate; try lia.
Qed.

Lemma geb_opp (x y : float) : geb (opp x) (opp y) = leb x y.
Proof. unfold geb, leb, SFleb. now rewrite compare_opp. Qed.

(** Without NaN, [x > 0] is the negation of [x <= 0]. *)
Lemma gtb_zero_not_leb (x : float) :
  is_nan x = false -> gtb x zero = negb (leb x zero).
Proof. destruct x as [s|s| |s m e]; try destruct s; intros H; try reflexivity; discriminate. Qed.

(** The sign of a positive, a negative and a zero initial current. *)
Lemma np_sign_pos (x : float) : gtb x zero = true -> np_sign x = one.
Proof. unfold np_sign. now intros ->. Qed.

Lemma np_sign_neg (x : float) : ltb x zero = true -> np_sign x = neg_one.
Proof.
  unfold np_sign. intros H. rewrite H.
  destruct x as [s|s| |s m e]; try destruct s; try discriminate; reflexivity.
Qed.

Lemma np_sign_zero (x : float) : eqb x zero = true -> np_sign x = zero.
Proof.
  unfold np_sign. intros H. rewrite H.
  destruct x as [s|s| |s m e]; try destruct s; try discriminate; reflexivity.
Qed.

End Binary64.

(** ** The run, step by step *)

Section Run.

Variable a : args.
Variable env : environment.

(** *** One cycle *)

Ltac cycle_cases a env n :=
  unfold cycle, cycle_events, stop_fires, stop_branch_events,
    turn_off_and_close, run_hybrid;
  destruct (0 <? n), (n =? max_repeats a - 1); cbn;
  destruct (stop_decision _ _ _) as [[] msgs]; cbn;
  try (destruct (is_open (pstat_after_hybrid env n)) eqn:Hopen; cbn;
       try rewrite Hopen);
  repeat rewrite <- app_assoc; auto.

(** The loop breaks after cycle [n] exactly when its stop decision fires. *)
Lemma cycle_stop n st : snd (cycle a env n st) = stop_fires a env n.
Proof. cycle_cases a env n. Qed.

Lemma cycle_trace n st :
  trace (fst (cycle a env n st)) =
  trace st ++ cycle_events a env n
    (if 0 <? n then false else start_with_cell_off st)
    (if n =? max_repeats a - 1 then false else leave_cell_on st).
Proof. cycle_cases a env n. Qed.

Lemma cycle_start_flag n st :
  start_with_cell_off (fst (cycle a env n st)) =
  (if 0 <? n then false else start_with_cell_off st).
Proof. cycle_cases a env n. Qed.

Lemma cycle_leave_flag n st :
  leave_cell_on (fst (cycle a env n st)) =
  (if n =? max_repeats a - 1 then false else leave_cell_on st).
Proof. cycle_cases a env n. Qed.

(** The instrument after cycle [n]: as the engine left it, unless the stop
    branch found it open and turned it off and closed it. *)
Lemma cycle_pstat n st :
  pstat (fst (cycle a env n st)) =
  if stop_fires a env n then
    (if is_open (pstat_after_hybrid env n)
     then Close (SetCell_CellOff (pstat_after_hybrid env n))
     else pstat_after_hybrid env n)
  else pstat_after_hybrid env n.
Proof. cycle_cases a env n. Qed.

(** *** The loop *)

Lemma cycles_cons n ns st :
  cycles a env (n :: ns) st =
  if stop_fires a env n then fst (cycle a env n st)
  else cycles a env ns (fst (cycle a env n st)).
Proof.
  simpl. rewrite <- (cycle_stop n st).
  destruct (cycle a env n st) as [st' []]; reflexivity.
Qed.

Lemma cycles_app_no_stop ns1 ns2 st :
  (forall n, In n ns1 -> stop_fires a env n = false) ->
  cycles a env (ns1 ++ ns2) st = cycles a env ns2 (cycles a env ns1 st).
Proof.
  revert st. induction ns1 as [|n ns1 IH]; intros st H; [reflexivity|].
  rewrite <- app_comm_cons, !cycles_cons.
  rewrite (H n (or_introl eq_refl)).
  apply IH. intros m Hm. apply H. right; exact Hm.
Qed.

Lemma run_until_stop_app_no_stop ns1 ns2 :
  (forall n, In n ns1 -> stop_fires a env n = false) ->
  run_until_stop a env (ns1 ++ ns2) = ns1 ++ run_until_stop a env ns2.
Proof.
  induction ns1 as [|n ns1 IH]; intros H; [reflexivity|].
  simpl. rewrite (H n (or_introl eq_refl)), IH; [reflexivity|].
  intros m Hm. apply H. right; exact Hm.
Qed.

Lemma run_until_stop_no_stop ns :
  (forall n, In n ns -> stop_fires a env n = false) ->
  run_until_stop a env ns = ns.
Proof.
  intros H. rewrite <- (app_nil_r ns) at 1.
  rewrite run_until_stop_app_no_stop by exact H. apply app_nil_r.
Qed.

(** The trace of the loop over the cycles [i, i+1, ..., i+len-1], entered with
    [leave_cell_on] still true. *)
Lemma cycles_trace : forall len i st,
  Z.of_nat (i + len) <= max_repeats a ->
  leave_cell_on st = true ->
  (i = 0%nat -> start_with_cell_off st = negb (conditioning_runs a)) ->
  trace (cycles a env (map Z.of_nat (List.seq i len)) st) =
  trace st ++
  flat_map (cycle_events_at a env)
    (run_until_stop a env (map Z.of_nat (List.seq i len))).
Proof.
  induction len as [|len IH]; intros i st Hlen Hleave Hstart.
  - simpl. now rewrite app_nil_r.
  - cbn [List.seq map]. rewrite cycles_cons. cbn [run_until_stop].
    assert (Hev : trace (fst (cycle a env (Z.of_nat i) st)) =
                  trace st ++ cycle_events_at a env (Z.of_nat i)).
    { rewrite cycle_trace. unfold cycle_events_at, directives. cbn [fst snd].
      rewrite Hleave.
      replace (if 0 <? Z.of_nat i then false else start_with_cell_off st)
        with ((Z.of_nat i =? 0) && negb (conditioning_runs a)).
      - destruct (Z.of_nat i =? max_repeats a - 1); reflexivity.
      - destruct i as [|i]; [rewrite Hstart by reflexivity; reflexivity|].
        replace (0 <? Z.of_nat (S i)) with true
          by (symmetry; apply Z.ltb_lt; lia).
        replace (Z.of_nat (S i) =? 0) with false
          by (symmetry; apply Z.eqb_neq; lia).
        reflexivity. }
    destruct (stop_fires a env (Z.of_nat i)) eqn:Hstop; cbn [flat_map].
    + rewrite app_nil_r. exact Hev.
    + destruct len as [|len].
      * cbn [List.seq map cycles run_until_stop flat_map].
        rewrite app_nil_r. exact Hev.
      * rewrite IH; [rewrite Hev, <- app_assoc; reflexivity|lia| |discriminate].
        rewrite cycle_leave_flag, Hleave.
        destruct (Z.eqb_spec (Z.of_nat i) (max_repeats a - 1));
          [lia|reflexivity].
Qed.

Lemma range_nonpos (N : Z) : N <= 0 -> range N = [].
Proof.
  intros H. unfold range. replace (Z.to_nat N) with 0%nat by lia. reflexivity.
Qed.

Lemma range_split (N k : Z) :
  0 <= k < N ->
  range N =
  range k ++
  k :: map Z.of_nat (List.seq (S (Z.to_nat k)) (Z.to_nat (N - k - 1))).
Proof.
  intros H. unfold range.
  replace (Z.to_nat N) with (Z.to_nat k + S (Z.to_nat (N - k - 1)))%nat by lia.
  rewrite seq_app, map_app. cbn [List.seq map]. rewrite Nat.add_0_l.
  now rewrite Z2Nat.id by lia.
Qed.

Lemma range_succ (k : Z) : 0 <= k -> range (k + 1) = range k ++ [k].
Proof.
  intros H. rewrite (range_split (k + 1) k) by lia.
  replace (k + 1 - k - 1) with 0 by lia. reflexivity.
Qed.

Lemma in_range (N n : Z) : In n (range N) <-> 0 <= n < N.
Proof.
  unfold range. rewrite in_map_iff. split.
  - intros [i [<- Hi]]. apply in_seq in Hi. lia.
  - intros H. exists (Z.to_nat n). split; [lia|]. apply in_seq. lia.
Qed.

Lemma length_range (N : Z) : List.length (range N) = Z.to_nat N.
Proof. unfold range. now rewrite length_map, length_seq. Qed.

(** *** The whole run *)

Lemma condition_start st :
  start_with_cell_off (condition a env st) = negb (conditioning_runs a).
Proof. unfold condition. destruct (conditioning_runs a); reflexivity. Qed.

Lemma condition_trace :
  trace (condition a env (initial_state env)) = conditioning_events a.
Proof.
  unfold condition, conditioning_events.
  destruct (conditioning_runs a); reflexivity.
Qed.

(** The trace when the loop is left: the conditioning step, then the cycles
    that are run, each with the directives of its index. *)
Lemma after_loop_trace :
  trace (after_loop a env) =
  conditioning_events a ++
  flat_map (cycle_events_at a env)
    (run_until_stop a env (range (max_repeats a))).
Proof.
  unfold after_loop.
  destruct (Z_le_gt_dec (max_repeats a) 0) as [H|H].
  - rewrite range_nonpos by exact H. simpl.
    now rewrite app_nil_r, condition_trace.
  - unfold range. rewrite cycles_trace.
    + cbn [trace set_leave_cell_on]. now rewrite condition_trace.
    + lia.
    + reflexivity.
    + intros _. cbn [start_with_cell_off set_leave_cell_on].
      apply condition_start.
Qed.

Lemma finish_trace st :
  trace (finish a env st) =
  trace st ++ (if voltage_finish a then finish_events a env else []).
Proof.
  unfold finish, finish_events, finish_run_events.
  destruct (voltage_finish a); [|now rewrite app_nil_r].
  destruct (time_sleep_returns env (finish_rest_time a)).
  - destruct (current_cutoffs _ _ _) as [i_min i_max]. cbn.
    now rewrite <- !app_assoc.
  - cbn. now rewrite <- app_assoc.
Qed.

(** The voltage finish holds no hybrid invocation, no conditioning run, no
    stop message and no command to the instrument handle. *)
Lemma finish_events_plain :
  hybrid_calls (finish_events a env) = []
  /\ filter is_pstat_command (finish_events a env) = []
  /\ existsb is_chrono_run (finish_events a env) = false
  /\ existsb is_stop_message (finish_events a env) = false.
Proof.
  unfold finish_events, finish_run_events.
  destruct (time_sleep_returns env (finish_rest_time a)); repeat split.
Qed.

Lemma main_trace :
  trace (main a env) =
  conditioning_events a ++
  flat_map (cycle_events_at a env)
    (run_until_stop a env (range (max_repeats a))) ++
  (if voltage_finish a then finish_events a env else []).
Proof.
  unfold main. now rewrite finish_trace, after_loop_trace, <- app_assoc.
Qed.

(** When the first stop decision that fires is that of cycle [k], the loop is
    left from cycle [k]. *)
Lemma after_loop_stops_at k :
  0 <= k < max_repeats a ->
  (forall j, 0 <= j < k -> stop_fires a env j = false) ->
  stop_fires a env k = true ->
  run_until_stop a env (range (max_repeats a)) = range (k + 1) /\
  exists st, after_loop a env = fst (cycle a env k st).
Proof.
  intros Hk Hbefore Hstop.
  assert (Hno : forall n, In n (range k) -> stop_fires a env n = false).
  { intros n Hn. apply Hbefore, in_range, Hn. }
  rewrite (range_split (max_repeats a) k) by exact Hk. split.
  - rewrite run_until_stop_app_no_stop by exact Hno.
    cbn [run_until_stop]. rewrite Hstop. now rewrite range_succ by lia.
  - unfold after_loop. rewrite (range_split (max_repeats a) k) by exact Hk.
    rewrite cycles_app_no_stop by exact Hno.
    rewrite cycles_cons, Hstop. eexists. reflexivity.
Qed.

(** Reading the hybrid invocations off the trace. *)
Lemma hybrid_calls_app (t1 t2 : list event) :
  hybrid_calls (t1 ++ t2) = hybrid_calls t1 ++ hybrid_calls t2.
Proof.
  induction t1 as [|e t1 IH]; [reflexivity|].
  destruct e; simpl; rewrite IH; reflexivity.
Qed.

Lemma hybrid_calls_prints (ms : list message) :
  hybrid_calls (map Print ms) = [].
Proof. induction ms; simpl; auto. Qed.

Lemma hybrid_calls_cycle n :
  hybrid_calls (cycle_events_at a env n) = [directives a n].
Proof.
  unfold cycle_events_at. destruct (directives a n) as [s l].
  unfold cycle_events, stop_branch_events. cbn.
  rewrite hybrid_calls_app, hybrid_calls_prints.
  destruct (stop_fires a env n); [|reflexivity].
  destruct (is_open (pstat_after_hybrid env n)); reflexivity.
Qed.

Lemma hybrid_calls_cycles ns :
  hybrid_calls (flat_map (cycle_events_at a env) ns) = map (directives a) ns.
Proof.
  induction ns as [|n ns IH]; [reflexivity|].
  cbn [flat_map map]. now rewrite hybrid_calls_app, hybrid_calls_cycle, IH.
Qed.

(** The hybrid invocations of a run: one per cycle that is run, in order. *)
Lemma main_hybrid_calls :
  hybrid_calls (trace (main a env)) =
  map (directives a) (run_until_stop a env (range (max_repeats a))).
Proof.
  rewrite main_trace, !hybrid_calls_app, hybrid_calls_cycles.
  destruct finish_events_plain as (Hf & _).
  assert (Hc : hybrid_calls (conditioning_events a) = [])
    by (unfold conditioning_events; destruct (conditioning_runs a);
        reflexivity).
  rewrite Hc. destruct (voltage_finish a); rewrite ?Hf; cbn;
    now rewrite app_nil_r.
Qed.

End Run.

(** ** The stop decision *)

(** C1.  After the hybrid measurement of every cycle the four checks are made
    in the order low-voltage breach ([meas_v_min <= stop_v_min]), high-voltage
    breach ([meas_v_max >= stop_v_max]), voltage finish reached (only when
    voltage finish is enabled), duration exceeded.  None of them is skipped
    because an earlier one fired: the messages printed are, in that order,
    exactly those of the checks that hold; and the stop flag, on which the
    loop breaks, is the disjunction of the four. *)
Theorem stop_decision_is_or_of_four_checks
    (a : args) (env : environment) (n : Z) (st : state) :
  let s := seq_after_hybrid env n in
  let elapsed := elapsed_time (time_at_start env) (time_in_cycle env n) in
  let low := leb (meas_v_min s) (stop_v_min a) in
  let high := geb (meas_v_max s) (stop_v_max a) in
  let fin := voltage_finish a &&
             geb (mul (meas_v_end s) (i_sign a)) (mul (finish_v a) (i_sign a)) in
  let late := geb elapsed (duration a) in
  let msgs :=
    (if low then [MsgBelowLow (meas_v_min s) (stop_v_min a)] else []) ++
    (if high then [MsgAboveHigh (meas_v_max s) (stop_v_max a)] else []) ++
    (if fin then [MsgFinishReached (meas_v_end s) (finish_v a)] else []) ++
    (if late then [MsgDurationReached elapsed (duration a)] else []) in
  stop_decision a s elapsed = (low || high || fin || late, msgs)
  /\ snd (cycle a env n st) = low || high || fin || late
  /\ exists sfx s_off l_on rest,
       trace (fst (cycle a env n st)) =
       trace st ++ [Print (MsgBeginCycle n); RunHybrid sfx s_off l_on]
                ++ map Print msgs ++ rest.
Proof.
  intros s elapsed low high fin late msgs.
  assert (Hdec : stop_decision a s elapsed = (low || high || fin || late, msgs)).
  { unfold stop_decision, check, low_voltage_breach, high_voltage_breach,
      voltage_finish_reached, duration_exceeded.
    subst msgs. fold low high fin late.
    destruct low, high, fin, late; reflexivity. }
  split; [exact Hdec|]. split.
  - rewrite cycle_stop. unfold stop_fires. fold s elapsed. now rewrite Hdec.
  - rewrite cycle_trace. unfold cycle_events. fold s elapsed. rewrite Hdec.
    cbn [snd]. do 4 eexists. reflexivity.
Qed.

(** ** How many cycles are run *)

Lemma map_all_true {A : Type} (f : A -> bool) (l : list A) :
  (forall x, In x l -> f x = true) -> map f l = repeat true (List.length l).
Proof.
  induction l as [|x l IH]; intros H; [reflexivity|].
  cbn. rewrite (H x (or_introl eq_refl)), IH; [reflexivity|].
  intros y Hy. apply H. right; exact Hy.
Qed.

(** C2.  With [max_repeats = N >= 1] and no stop decision ever firing, the
    hybrid measurement is invoked exactly N times; it is told to leave the
    cell on in the cycles 0 to N-2 and not in cycle N-1. *)
Theorem no_stop_runs_every_cycle (a : args) (env : environment) :
  1 <= max_repeats a ->
  (forall n, 0 <= n < max_repeats a -> stop_fires a env n = false) ->
  List.length (hybrid_calls (trace (main a env))) = Z.to_nat (max_repeats a)
  /\ map snd (hybrid_calls (trace (main a env))) =
     repeat true (Z.to_nat (max_repeats a - 1)) ++ [false].
Proof.
  intros HN Hno. rewrite main_hybrid_calls.
  rewrite run_until_stop_no_stop by (intros n Hn; apply Hno, in_range, Hn).
  split; [now rewrite length_map, length_range|].
  rewrite map_map. cbn [directives snd].
  replace (max_repeats a) with (max_repeats a - 1 + 1) at 1 by lia.
  rewrite range_succ, map_app by lia. cbn [map].
  rewrite Z.eqb_refl. cbn [negb]. f_equal.
  rewrite map_all_true, length_range; [reflexivity|].
  intros n Hn. apply in_range in Hn.
  apply negb_true_iff, Z.eqb_neq. lia.
Qed.

(** Three configured cycles in an environment where nothing ever stops the
    run: three invocations, leave-cell-on true, true, false. *)
Lemma no_stop_runs_every_cycle_witness :
  let a := make_args one zero 3 false zero f0_005 one in
  let env := quiet_env pstat_open_on in
  List.length (hybrid_calls (trace (main a env))) = 3%nat
  /\ map snd (hybrid_calls (trace (main a env))) = [true; true; false].
Proof.
  intros a env.
  apply (no_stop_runs_every_cycle a env); [cbn; lia | intros n _; reflexivity].
Defined.

(** ** The stop branch *)

Lemma filter_prints (f : event -> bool) (ms : list message) :
  (forall m, f (Print m) = false) -> filter f (map Print ms) = [].
Proof.
  intros H. induction ms as [|m ms IH]; [reflexivity|].
  cbn. now rewrite H, IH.
Qed.

(** The instrument is addressed in a cycle only by its stop branch. *)
Lemma pstat_commands_cycle a env n :
  filter is_pstat_command (cycle_events_at a env n) =
  if stop_fires a env n then stop_branch_events (pstat_after_hybrid env n)
  else [].
Proof.
  unfold cycle_events_at, cycle_events, stop_branch_events.
  cbn [app filter is_pstat_command].
  rewrite filter_app, filter_prints by reflexivity.
  destruct (stop_fires a env n); [|reflexivity].
  destruct (is_open (pstat_after_hybrid env n)); reflexivity.
Qed.

Lemma pstat_commands_no_stop a env ns :
  (forall n, In n ns -> stop_fires a env n = false) ->
  filter is_pstat_command (flat_map (cycle_events_at a env) ns) = [].
Proof.
  induction ns as [|n ns IH]; intros H; [reflexivity|].
  cbn [flat_map]. rewrite filter_app, pstat_commands_cycle.
  rewrite (H n (or_introl eq_refl)), IH; [reflexivity|].
  intros m Hm. apply H. right; exact Hm.
Qed.

Lemma pstat_commands_conditioning a :
  filter is_pstat_command (conditioning_events a) = [].
Proof. unfold conditioning_events. destruct (conditioning_runs a); reflexivity. Qed.

(** C3, as the script has it.  When the low- or the high-voltage breach fires
    in cycle k < N-1 and no stop decision fired before, the loop is left
    after exactly k+1 hybrid invocations and the instrument session is
    closed then.  The instrument is addressed once in the whole loop, at its
    end: the script asks whether the session is open; if it is, it commands
    the cell off and then closes the session; if it is not, it commands
    nothing and the instrument stays as the engine left it. *)
Theorem breach_stops_loop (a : args) (env : environment) (k : Z) :
  0 <= k < max_repeats a - 1 ->
  (forall j, 0 <= j < k -> stop_fires a env j = false) ->
  low_voltage_breach a (seq_after_hybrid env k)
  || high_voltage_breach a (seq_after_hybrid env k) = true ->
  let st := after_loop a env in
  let p := pstat_after_hybrid env k in
  let asked :=
    TestIsOpen (is_open p) ::
    (if is_open p then [SetCellOff; ClosePstat] else []) in
  List.length (hybrid_calls (trace (main a env))) = Z.to_nat (k + 1)
  /\ is_open (pstat st) = false
  /\ pstat st =
     (if is_open p then {| is_open := false; cell_on := false |} else p)
  /\ filter is_pstat_command (trace st) = asked
  /\ exists before, trace st = before ++ asked.
Proof.
  intros Hk Hbefore Hbreach st p asked.
  assert (Hstop : stop_fires a env k = true).
  { unfold stop_fires, stop_decision, check.
    apply orb_true_iff in Hbreach.
    destruct Hbreach as [-> | ->];
      repeat match goal with |- context [if ?c then _ else _] => destruct c end;
      reflexivity. }
  destruct (after_loop_stops_at a env k) as [Hrun [st0 Hst]];
    [lia|exact Hbefore|exact Hstop|].
  split; [|split; [|split; [|split]]].
  - rewrite main_hybrid_calls, Hrun, length_map, length_range. reflexivity.
  - subst st. rewrite Hst, cycle_pstat, Hstop.
    fold p. destruct (is_open p) eqn:Hp; [reflexivity|exact Hp].
  - subst st. rewrite Hst, cycle_pstat, Hstop. fold p.
    destruct (is_open p); reflexivity.
  - subst st. rewrite after_loop_trace, Hrun, range_succ by lia.
    rewrite flat_map_app, !filter_app, pstat_commands_conditioning.
    rewrite pstat_commands_no_stop
      by (intros n Hn; apply Hbefore, in_range, Hn).
    cbn [flat_map app]. rewrite app_nil_r, pstat_commands_cycle, Hstop.
    reflexivity.
  - subst st. rewrite Hst, cycle_trace. unfold cycle_events.
    rewrite Hstop. fold p. unfold stop_branch_events. fold asked.
    eexists. rewrite !app_assoc. reflexivity.
Qed.

(** The low limit is reached in cycle 1 of 3, with the session open: two
    invocations, then cell off and close. *)
Lemma breach_stops_loop_witness :
  let a := make_args one zero 3 false zero f0_005 one in
  let env := breach_env 1 pstat_open_on in
  List.length (hybrid_calls (trace (main a env))) = 2%nat
  /\ is_open (pstat (after_loop a env)) = false
  /\ pstat (after_loop a env) = {| is_open := false; cell_on := false |}
  /\ filter is_pstat_command (trace (after_loop a env)) =
     [TestIsOpen true; SetCellOff; ClosePstat]
  /\ exists before,
       trace (after_loop a env) =
       before ++ [TestIsOpen true; SetCellOff; ClosePstat].
Proof.
  intros a env.
  apply (breach_stops_loop a env 1); [cbn; lia | | reflexivity].
  intros j Hj. replace j with 0 by lia. reflexivity.
Defined.

(** C3 as it is worded fails where the guard of the stop branch is false: the
    low limit is reached in cycle 1 of 3 while the instrument reports its
    session closed.  The loop is left after two invocations, but the cell is
    never commanded off, and it stays on. *)
Lemma breach_with_session_closed_no_cell_off :
  let a := make_args one zero 3 false zero f0_005 one in
  let env := breach_env 1 pstat_closed_on in
  0 <= 1 < max_repeats a - 1
  /\ stop_fires a env 0 = false
  /\ low_voltage_breach a (seq_after_hybrid env 1) = true
  /\ List.length (hybrid_calls (trace (main a env))) = 2%nat
  /\ ~ In SetCellOff (trace (main a env))
  /\ cell_on (pstat (after_loop a env)) = true.
Proof.
  cbv zeta. repeat split; try reflexivity; try (cbn; lia).
  intros H. vm_compute in H.
  repeat (destruct H as [H|H]; [discriminate H|]). exact H.
Qed.

(** ** A single cycle *)

Lemma stop_messages_not_finish a s elapsed :
  existsb is_finish_event (map Print (snd (stop_decision a s elapsed))) = false.
Proof.
  unfold stop_decision, check.
  destruct (low_voltage_breach a s), (high_voltage_breach a s),
    (voltage_finish_reached a s), (duration_exceeded a elapsed); reflexivity.
Qed.

(** C7, as the script has it.  With [max_repeats = 1], voltage finish
    disabled and no conditioning, the run is one cycle: the hybrid measurement
    is invoked once, with start-with-cell-off true and leave-cell-on false,
    the stop decision is made, and nothing of the voltage finish happens.
    The script closes the session after that invocation (commanding the cell
    off first) exactly when the stop decision fires and the session is open;
    when no stop condition fires it only prints the rest message. *)
Theorem single_cycle_run (a : args) (env : environment) :
  max_repeats a = 1 ->
  voltage_finish a = false ->
  conditioning_runs a = false ->
  let p := pstat_after_hybrid env 0 in
  let msgs :=
    snd (stop_decision a (seq_after_hybrid env 0) (elapsed_in_cycle env 0)) in
  trace (main a env) =
    [Print (MsgBeginCycle 0); RunHybrid (file_suffix a) true false]
    ++ map Print msgs
    ++ (if stop_fires a env 0
        then TestIsOpen (is_open p) ::
             (if is_open p then [SetCellOff; ClosePstat] else [])
        else [Print (MsgRestBetween (hybrid_rest_time a))])
  /\ hybrid_calls (trace (main a env)) = [(true, false)]
  /\ existsb is_finish_event (trace (main a env)) = false
  /\ (In ClosePstat (trace (main a env)) <->
      stop_fires a env 0 = true /\ is_open p = true).
Proof.
  intros HN Hvf Hcond p msgs.
  assert (Htr : trace (main a env) =
    [Print (MsgBeginCycle 0); RunHybrid (file_suffix a) true false]
    ++ map Print msgs
    ++ (if stop_fires a env 0
        then TestIsOpen (is_open p) ::
             (if is_open p then [SetCellOff; ClosePstat] else [])
        else [Print (MsgRestBetween (hybrid_rest_time a))])).
  { rewrite main_trace, Hvf, HN. unfold conditioning_events. rewrite Hcond.
    change (range 1) with [0]. cbn [run_until_stop app].
    assert (E : (if stop_fires a env 0 then [0] else [0]) = [0])
      by (destruct (stop_fires a env 0); reflexivity).
    rewrite E. cbn [flat_map]. rewrite !app_nil_r.
    unfold cycle_events_at, cycle_events, directives, cycle_suffix,
      stop_branch_events.
    rewrite HN, Hcond. reflexivity. }
  split; [exact Htr|]. split; [|split].
  - rewrite Htr. cbn. rewrite hybrid_calls_app, hybrid_calls_prints.
    destruct (stop_fires a env 0); [|reflexivity].
    destruct (is_open p); reflexivity.
  - rewrite Htr. cbn. rewrite existsb_app. subst msgs.
    rewrite stop_messages_not_finish.
    destruct (stop_fires a env 0); [|reflexivity].
    destruct (is_open p); reflexivity.
  - rewrite Htr. split.
    + intros Hin. cbn in Hin. destruct Hin as [Hin|[Hin|Hin]];
        [discriminate|discriminate|].
      apply in_app_or in Hin. destruct Hin as [Hin|Hin].
      * apply in_map_iff in Hin. destruct Hin as [m [Hm _]]. discriminate.
      * destruct (stop_fires a env 0).
        -- destruct (is_open p); [split; reflexivity|].
           cbn in Hin. destruct Hin as [Hin|[]]. discriminate.
        -- cbn in Hin. destruct Hin as [Hin|[]]. discriminate.
    + intros [-> ->]. cbn. right. right. apply in_or_app. right.
      cbn. tauto.
Qed.

(** The defaults with the low limit reached in cycle 0 and the session open:
    the one invocation is followed by cell off and close. *)
Lemma single_cycle_run_witness :
  let a := default_args one in
  let env := breach_env 0 pstat_open_on in
  trace (main a env) =
    [Print (MsgBeginCycle 0); RunHybrid "run" true false;
     Print (MsgBelowLow neg_one neg_one);
     TestIsOpen true; SetCellOff; ClosePstat]
  /\ hybrid_calls (trace (main a env)) = [(true, false)]
  /\ existsb is_finish_event (trace (main a env)) = false
  /\ (In ClosePstat (trace (main a env)) <->
      stop_fires a env 0 = true /\ is_open (pstat_after_hybrid env 0) = true).
Proof.
  intros a env.
  apply (single_cycle_run a env); reflexivity.
Defined.

(** C7 as it is worded fails whenever no stop condition fires: with the
    defaults and a quiet measurement the one invocation (start-with-cell-off
    true, leave-cell-on false) is followed by the rest message only.  The
    script never closes the session, and a session the engine left open
    stays open. *)
Lemma single_cycle_without_stop_never_closes :
  let a := default_args one in
  let env := quiet_env pstat_open_on in
  max_repeats a = 1
  /\ voltage_finish a = false
  /\ conditioning_runs a = false
  /\ trace (main a env) =
     [Print (MsgBeginCycle 0); RunHybrid "run" true false;
      Print (MsgRestBetween zero)]
  /\ ~ In ClosePstat (trace (main a env))
  /\ is_open (pstat (main a env)) = true.
Proof.
  cbv zeta. repeat split; try reflexivity.
  intros H. vm_compute in H.
  repeat (destruct H as [H|H]; [discriminate H|]). exact H.
Qed.

(** ** The start-with-cell-off directive *)

Lemma nth_error_range_seq : forall len i n m,
  nth_error (map Z.of_nat (List.seq i len)) n = Some m -> m = Z.of_nat (i + n).
Proof.
  induction len as [|len IH]; intros i n m H.
  - destruct n; discriminate.
  - destruct n as [|n]; cbn in H.
    + injection H as <-. f_equal. lia.
    + apply IH in H. subst m. f_equal. lia.
Qed.

(** The cycles that are run are the first ones of those configured. *)
Lemma nth_error_run_until_stop a env : forall ns n m,
  nth_error (run_until_stop a env ns) n = Some m -> nth_error ns n = Some m.
Proof.
  induction ns as [|k ns IH]; intros n m H; [destruct n; discriminate|].
  cbn in H. destruct (stop_fires a env k).
  - destruct n as [|n]; [exact H|]. destruct n; discriminate.
  - destruct n as [|n]; [exact H|]. cbn. apply IH. exact H.
Qed.

Lemma existsb_prints (f : event -> bool) (ms : list message) :
  (forall m, f (Print m) = false) -> existsb f (map Print ms) = false.
Proof.
  intros H. induction ms as [|m ms IH]; [reflexivity|].
  cbn. now rewrite H, IH.
Qed.

Lemma no_chrono_in_cycles a env ns :
  existsb is_chrono_run (flat_map (cycle_events_at a env) ns) = false.
Proof.
  induction ns as [|n ns IH]; [reflexivity|].
  cbn [flat_map]. rewrite existsb_app, IH, orb_false_r.
  unfold cycle_events_at, cycle_events, stop_branch_events. cbn.
  rewrite existsb_app, existsb_prints by reflexivity.
  destruct (stop_fires a env n); [|reflexivity].
  destruct (is_open (pstat_after_hybrid env n)); reflexivity.
Qed.

(** C6.  The hybrid measurement is told to start with the cell off only in
    cycle 0 and only when the conditioning step did not run; it is told not
    to in cycle 0 after conditioning, and in every later cycle.  The
    conditioning step runs exactly when [condition_time > 0], which for a
    [condition_time] that is a number is the negation of
    [condition_time <= 0]. *)
Theorem start_with_cell_off_directive (a : args) (env : environment) :
  (forall n d,
     nth_error (hybrid_calls (trace (main a env))) n = Some d ->
     fst d = Nat.eqb n 0 && negb (conditioning_runs a))
  /\ existsb is_chrono_run (trace (main a env)) = conditioning_runs a
  /\ (is_nan (condition_time a) = false ->
      negb (conditioning_runs a) = leb (condition_time a) zero).
Proof.
  split; [|split].
  - intros n d H. rewrite main_hybrid_calls in H.
    rewrite nth_error_map in H.
    destruct (nth_error _ n) as [m|] eqn:Hm; [|discriminate].
    injection H as <-.
    apply nth_error_run_until_stop in Hm.
    apply nth_error_range_seq in Hm. subst m.
    cbn [directives fst]. destruct n; reflexivity.
  - rewrite main_trace, !existsb_app, no_chrono_in_cycles.
    destruct (finish_events_plain a env) as (_ & _ & Hf & _).
    destruct (voltage_finish a); rewrite ?Hf; unfold conditioning_events;
      destruct (conditioning_runs a); reflexivity.
  - intros Hnan. unfold conditioning_runs.
    rewrite gtb_zero_not_leb by exact Hnan. apply negb_involutive.
Qed.

(** [condition_time = 600], two cycles: one conditioning run, and both
    invocations are told not to start with the cell off. *)
Lemma start_with_cell_off_directive_witness :
  let a := make_args one f600 2 false zero f0_005 one in
  let env := quiet_env pstat_open_on in
  hybrid_calls (trace (main a env)) = [(false, true); (false, false)]
  /\ fst (false, true) = Nat.eqb 0 0 && negb (conditioning_runs a)
  /\ fst (false, false) = Nat.eqb 1 0 && negb (conditioning_runs a)
  /\ List.length (filter is_chrono_run (trace (main a env))) = 1%nat
  /\ negb (conditioning_runs a) = leb (condition_time a) zero.
Proof.
  intros a env.
  destruct (start_with_cell_off_directive a env) as [Hd [_ Hle]].
  split; [reflexivity|]. split; [|split; [|split]].
  - apply (Hd 0%nat). reflexivity.
  - apply (Hd 1%nat). reflexivity.
  - reflexivity.
  - apply Hle. reflexivity.
Defined.

(** ** The duration check *)

Lemma duration_exceeded_stops a s elapsed :
  duration_exceeded a elapsed = true -> fst (stop_decision a s elapsed) = true.
Proof.
  intros H. unfold stop_decision, check. rewrite H. reflexivity.
Qed.

(** C8.  When the elapsed time read at the cycle boundaries never decreases,
    the duration check is monotone: once it holds at the boundary of cycle i
    it holds at the boundary of every later cycle j, and so does the stop
    decision there. *)
Theorem duration_check_monotone (a : args) (env : environment) :
  (forall n, 0 <= n ->
     leb (elapsed_in_cycle env n) (elapsed_in_cycle env (n + 1)) = true) ->
  forall i j, 0 <= i <= j ->
    duration_exceeded a (elapsed_in_cycle env i) = true ->
    duration_exceeded a (elapsed_in_cycle env j) = true
    /\ stop_fires a env j = true.
Proof.
  intros Hmono i j Hij Hi.
  assert (Hj : duration_exceeded a (elapsed_in_cycle env j) = true).
  { replace j with (i + Z.of_nat (Z.to_nat (j - i))) by lia.
    induction (Z.to_nat (j - i)) as [|d IH].
    - now rewrite Z.add_0_r.
    - unfold duration_exceeded, geb in *. fold (leb (duration a)) in *.
      eapply leb_trans; [exact IH|].
      replace (i + Z.of_nat (S d)) with (i + Z.of_nat d + 1) by lia.
      apply Hmono. lia. }
  split; [exact Hj|].
  apply duration_exceeded_stops. exact Hj.
Qed.

(** The clock reads 0 s in cycle 0 and 3600 s from cycle 1 on, the duration
    is 3600 s: exceeded in cycle 1, hence in cycle 5. *)
Lemma duration_check_monotone_witness :
  let a := make_args one zero 10 false zero f0_005 one in
  duration_exceeded a (elapsed_in_cycle late_env 1) = true
  /\ duration_exceeded a (elapsed_in_cycle late_env 5) = true
  /\ stop_fires a late_env 5 = true.
Proof.
  intros a. split; [reflexivity|].
  apply (duration_check_monotone a late_env) with (i := 1);
    [ | lia | reflexivity].
  intros n Hn. unfold elapsed_in_cycle, late_env. cbn.
  destruct (Z.ltb_spec n 1), (Z.ltb_spec (n + 1) 1);
    try reflexivity; lia.
Defined.

(** ** A zero initial current *)

Lemma finish_check_zero_sign (a : args) (s : sequencer) :
  i_sign a = zero ->
  voltage_finish a = true ->
  is_finite (finish_v a) = true ->
  is_finite (meas_v_end s) = true ->
  voltage_finish_reached a s = true.
Proof.
  intros Hs Hvf Hfv Hv. unfold voltage_finish_reached.
  rewrite Hvf, Hs. cbn [andb]. apply geb_zeros; apply mul_zero_r; assumption.
Qed.

Lemma finish_reached_stops a s elapsed :
  voltage_finish_reached a s = true -> fst (stop_decision a s elapsed) = true.
Proof.
  intros H. unfold stop_decision, check. rewrite H.
  destruct (duration_exceeded a elapsed); reflexivity.
Qed.

Lemma no_stop_message_in_conditioning a :
  existsb is_stop_message (conditioning_events a) = false.
Proof. unfold conditioning_events. destruct (conditioning_runs a); reflexivity. Qed.

Lemma mul_abs_zero_exact (x : float) :
  mul (abs x) zero = if is_finite x then zero else nan.
Proof. destruct x; reflexivity. Qed.

Lemma geb_mul_zero (x y : float) :
  geb (mul x zero) (mul y zero) = is_finite x && is_finite y.
Proof. destruct x, y; reflexivity. Qed.

(** C9, as the script has it.  When the initial current is exactly zero
    ([hybrid_i_init == 0]) the current sign is 0 and the cutoff computation
    takes its second (the negative) branch.  Each cutoff is then 0 when its
    parameter is finite and NaN otherwise, so the band is [i_min = 0],
    [i_max = 0] for finite parameters.  The voltage-finish comparison
    [meas_v_end * 0 >= finish_v * 0] holds exactly when the end voltage and
    the finish voltage are both finite (an infinity or a NaN times 0 is NaN,
    and no comparison with NaN holds).  So with voltage finish enabled, a
    finite finish voltage and a finite end voltage in cycle 0, the stop
    decision of cycle 0 fires, and a run with at least one cycle configured
    has exactly one hybrid invocation. *)
Theorem zero_current_stops_after_first_cycle (a : args) (env : environment) :
  eqb (hybrid_i_init a) zero = true ->
  i_sign a = zero
  /\ gtb (i_sign a) zero = false
  /\ current_cutoffs (i_sign a) (finish_i_thresh a) (finish_i_max a)
     = (if is_finite (finish_i_max a) then zero else nan,
        if is_finite (finish_i_thresh a) then zero else nan)
  /\ (forall s,
        voltage_finish_reached a s =
        voltage_finish a
        && (is_finite (meas_v_end s) && is_finite (finish_v a)))
  /\ (voltage_finish a = true ->
      is_finite (finish_v a) = true ->
      is_finite (meas_v_end (seq_after_hybrid env 0)) = true ->
      stop_fires a env 0 = true
      /\ (1 <= max_repeats a ->
          hybrid_calls (trace (main a env)) = [directives a 0])).
Proof.
  intros Hz.
  assert (Hs : i_sign a = zero) by (apply np_sign_zero; exact Hz).
  split; [exact Hs|]. split; [now rewrite Hs|]. split; [|split].
  - unfold current_cutoffs. rewrite Hs.
    change (gtb zero zero) with false. cbn iota.
    now rewrite !mul_abs_zero_exact.
  - intros s. unfold voltage_finish_reached. now rewrite Hs, geb_mul_zero.
  - intros Hvf Hfv Hv.
    assert (Hstop : stop_fires a env 0 = true)
      by (apply finish_reached_stops, finish_check_zero_sign; assumption).
    split; [exact Hstop|].
    intros HN. rewrite main_hybrid_calls.
    rewrite (range_split (max_repeats a) 0) by lia.
    change (range 0) with (@nil Z). cbn [app run_until_stop].
    now rewrite Hstop.
Qed.

(** Zero initial current, five cycles configured, voltage finish enabled:
    the band is (0, 0) and there is one invocation, stopped by the finish
    check. *)
Lemma zero_current_stops_after_first_cycle_witness :
  let a := make_args zero zero 5 true zero f0_005 one in
  let env := quiet_env pstat_open_on in
  i_sign a = zero
  /\ current_cutoffs (i_sign a) (finish_i_thresh a) (finish_i_max a)
     = (zero, zero)
  /\ voltage_finish_reached a (seq_after_hybrid env 0) = true
  /\ stop_fires a env 0 = true
  /\ hybrid_calls (trace (main a env)) = [(true, true)].
Proof.
  intros a env.
  destruct (zero_current_stops_after_first_cycle a env)
    as (Hs & _ & Hband & Hcheck & Hloop); [reflexivity|].
  destruct Hloop as (Hstop & Hcalls); [reflexivity|reflexivity|reflexivity|].
  split; [exact Hs|]. split; [rewrite Hband; reflexivity|].
  split; [rewrite Hcheck; reflexivity|]. split; [exact Hstop|].
  apply Hcalls. cbn. lia.
Defined.

(** C9 as it is worded fails for values the parser accepts.  With a zero
    current, voltage finish enabled and [--finish_v nan] the finish check is
    false and both configured cycles are run; with [--finish_i_max inf] the
    lower cutoff is NaN, not 0. *)
Lemma zero_current_with_nan_or_infinite_values :
  (let a := make_args zero zero 2 true nan f0_005 one in
   let env := quiet_env pstat_open_on in
   eqb (hybrid_i_init a) zero = true
   /\ voltage_finish a = true
   /\ voltage_finish_reached a (seq_after_hybrid env 0) = false
   /\ stop_fires a env 0 = false
   /\ hybrid_calls (trace (main a env)) = [(true, true); (false, false)])
  /\ (let a := make_args zero zero 1 true zero f0_005 infinity in
      eqb (hybrid_i_init a) zero = true
      /\ current_cutoffs (i_sign a) (finish_i_thresh a) (finish_i_max a)
         = (nan, zero)).
Proof. cbv zeta. repeat split; reflexivity. Qed.

(** ** No cycle configured *)

(** C10, as the script has it.  With [max_repeats <= 0] the body of the loop
    is never executed: the state after the loop is the state after the
    conditioning step, there is no hybrid invocation, no message of a stop
    check, and the instrument is neither asked for its session nor commanded
    off nor closed.  The voltage finish is still entered whenever it is
    enabled: its rest message follows the conditioning step directly, and
    the wait, the cutoff computation and the potentiostatic run follow when
    [time.sleep] takes [finish_rest_time]; when it raises, the script ends
    there, without cutoffs and without potentiostatic run. *)
Theorem nonpositive_max_repeats_skips_loop (a : args) (env : environment) :
  max_repeats a <= 0 ->
  let after_conditioning := condition a env (initial_state env) in
  let band := current_cutoffs (i_sign a) (finish_i_thresh a) (finish_i_max a) in
  after_loop a env = set_leave_cell_on true after_conditioning
  /\ hybrid_calls (trace (main a env)) = []
  /\ existsb is_stop_message (trace (main a env)) = false
  /\ existsb is_pstat_command (trace (main a env)) = false
  /\ trace (main a env) =
     trace after_conditioning ++
     (if voltage_finish a then
        Print (MsgRestBeforeFinish (finish_rest_time a)) ::
        (if time_sleep_returns env (finish_rest_time a) then
           [Sleep (finish_rest_time a);
            Print (MsgFinishLimits (fst band) (snd band));
            PstaticRun (finish_v a) (finish_duration a) (finish_t_sample a)
              (fst band) (snd band)
              {| directory := data_path a;
                 name := "PSTATIC-FINISH_" ++ file_suffix a ++ ".DTA" |}
              (kst_file_of a)]
         else [SleepRaises (finish_rest_time a)])
      else []).
Proof.
  intros HN after_conditioning band.
  assert (Htr : trace (main a env) =
                conditioning_events a ++
                (if voltage_finish a then finish_events a env else [])).
  { rewrite main_trace, range_nonpos by exact HN. reflexivity. }
  destruct (finish_events_plain a env) as (_ & Hcmd & _ & Hmsg).
  split; [|split; [|split; [|split]]].
  - unfold after_loop. now rewrite range_nonpos by exact HN.
  - rewrite main_hybrid_calls, range_nonpos by exact HN. reflexivity.
  - rewrite Htr, existsb_app, no_stop_message_in_conditioning.
    destruct (voltage_finish a); [exact Hmsg|reflexivity].
  - rewrite Htr, existsb_app.
    assert (Hc : existsb is_pstat_command (conditioning_events a) = false)
      by (unfold conditioning_events; destruct (conditioning_runs a);
          reflexivity).
    rewrite Hc. destruct (voltage_finish a); [|reflexivity].
    unfold finish_events, finish_run_events.
    destruct (time_sleep_returns env (finish_rest_time a)); reflexivity.
  - rewrite Htr. subst after_conditioning. now rewrite condition_trace.
Qed.

(** [max_repeats = 0], conditioning for 600 s, voltage finish enabled with a
    negative current and a rest of 2 s: the conditioning run is followed by
    the voltage finish with the band (-1.0, -0.005). *)
Lemma nonpositive_max_repeats_skips_loop_witness :
  let a := make_args neg_one f600 0 true zero f0_005 one in
  let env := quiet_env pstat_open_on in
  hybrid_calls (trace (main a env)) = []
  /\ existsb is_stop_message (trace (main a env)) = false
  /\ existsb is_pstat_command (trace (main a env)) = false
  /\ trace (main a env) =
     [Print (MsgConditioning neg_one f600);
      ChronoRun neg_one f600 f0_001 true
        {| directory := "."; name := "Conditioning_run.DTA" |} None;
      Print (MsgRestBeforeFinish two);
      Sleep two;
      Print (MsgFinishLimits neg_one (opp f0_005));
      PstaticRun zero f3600 one neg_one (opp f0_005)
        {| directory := "."; name := "PSTATIC-FINISH_run.DTA" |} None].
Proof.
  intros a env.
  destruct (nonpositive_max_repeats_skips_loop a env) as (_ & H1 & H2 & H3 & H4);
    [cbn; lia|].
  split; [exact H1|]. split; [exact H2|]. split; [exact H3|].
  rewrite H4. reflexivity.
Defined.

(** C10 as it is worded fails for a rest [time.sleep] does not take.  With
    [max_repeats = 0], voltage finish enabled and [--finish_rest_time -1] the
    script prints the rest message and ends in the exception of
    [time.sleep]: no cutoff is computed and no potentiostatic run is made. *)
Lemma finish_stage_cut_short_by_sleep :
  let a := with_finish_rest_time neg_one
             (make_args one zero 0 true zero f0_005 one) in
  let env := quiet_env pstat_open_on in
  max_repeats a <= 0
  /\ voltage_finish a = true
  /\ trace (main a env) =
     [Print (MsgRestBeforeFinish neg_one); SleepRaises neg_one]
  /\ existsb is_pstatic_run (trace (main a env)) = false.
Proof. cbv zeta. repeat split; try reflexivity. Qed.

(** ** The voltage finish *)

Lemma gtb_abs_nonzero (x : float) : nonzero x = true -> gtb (abs x) zero = true.
Proof. destruct x as [s|s| |s m e]; try discriminate; reflexivity. Qed.

Lemma ltb_opp_abs_nonzero (x : float) :
  nonzero x = true -> ltb (opp (abs x)) zero = true.
Proof. destruct x as [s|s| |s m e]; try discriminate; reflexivity. Qed.

Lemma abs_opp_abs (x : float) : abs (opp (abs x)) = abs x.
Proof. destruct x; reflexivity. Qed.

(** C4, as the script has it.  The current cutoffs of the voltage finish.  For
    a positive current sign (initial current > 0) the band is
    [i_min = |finish_i_thresh|], [i_max = |finish_i_max|]; for a negative one
    (initial current < 0, sign -1) it is [i_min = -|finish_i_max|],
    [i_max = -|finish_i_thresh|].  Both cutoffs are positive in the first case
    and negative in the second when the two parameters are numbers other than
    zero, and in the second case [i_min] holds the larger magnitude when
    |finish_i_thresh| <= |finish_i_max|: the script takes the absolute values
    of whatever it is given and neither rejects a zero nor orders the two.
    With sign +1, 0.005 and 1.0 the band is (0.005, 1.0); with sign -1 and
    the same magnitudes it is (-1.0, -0.005). *)
Theorem current_cutoffs_band (a : args) :
  valid (finish_i_thresh a) = true ->
  valid (finish_i_max a) = true ->
  let th := finish_i_thresh a in
  let im := finish_i_max a in
  let band := current_cutoffs (i_sign a) th im in
  (gtb (hybrid_i_init a) zero = true ->
     i_sign a = one
     /\ band = (abs th, abs im)
     /\ (nonzero th = true -> nonzero im = true ->
         gtb (fst band) zero = true /\ gtb (snd band) zero = true))
  /\ (ltb (hybrid_i_init a) zero = true ->
     i_sign a = neg_one
     /\ band = (opp (abs im), opp (abs th))
     /\ (nonzero th = true -> nonzero im = true ->
         ltb (fst band) zero = true /\ ltb (snd band) zero = true)
     /\ (leb (abs th) (abs im) = true ->
         geb (abs (fst band)) (abs (snd band)) = true))
  /\ current_cutoffs one f0_005 one = (f0_005, one)
  /\ current_cutoffs neg_one f0_005 one = (neg_one, opp f0_005).
Proof.
  intros Hth Him th im band.
  split; [|split; [|split; reflexivity]].
  - intros Hpos.
    assert (Hs : i_sign a = one) by (apply np_sign_pos; exact Hpos).
    assert (Hb : band = (abs th, abs im))
      by (subst band; unfold current_cutoffs; rewrite Hs; reflexivity).
    split; [exact Hs|]. split; [exact Hb|].
    intros Nth Nim. rewrite Hb. cbn [fst snd].
    split; apply gtb_abs_nonzero; assumption.
  - intros Hneg.
    assert (Hs : i_sign a = neg_one) by (apply np_sign_neg; exact Hneg).
    assert (Hb : band = (opp (abs im), opp (abs th))).
    { subst band. unfold current_cutoffs. rewrite Hs.
      change (gtb neg_one zero) with false. cbn iota.
      rewrite !mul_neg_one_r by (apply valid_abs; assumption). reflexivity. }
    split; [exact Hs|]. split; [exact Hb|]. rewrite Hb. cbn [fst snd]. split.
    + intros Nth Nim. split; apply ltb_opp_abs_nonzero; assumption.
    + intros Hle. rewrite !abs_opp_abs. exact Hle.
Qed.

(** The defaults, 0.005 A and 1.0 A, with an initial current of -1.0 A. *)
Lemma current_cutoffs_band_witness :
  let a := finish_args neg_one in
  i_sign a = neg_one
  /\ current_cutoffs (i_sign a) (finish_i_thresh a) (finish_i_max a)
     = (neg_one, opp f0_005)
  /\ ltb neg_one zero = true /\ ltb (opp f0_005) zero = true
  /\ geb (abs neg_one) (abs (opp f0_005)) = true.
Proof.
  intros a.
  destruct (current_cutoffs_band a) as (_ & Hneg & _);
    [reflexivity|reflexivity|].
  destruct Hneg as (Hs & Hb & Hsign & Hmag); [reflexivity|].
  split; [exact Hs|]. split; [exact Hb|].
  destruct Hsign as [H1 H2]; [reflexivity|reflexivity|].
  split; [exact H1|]. split; [exact H2|].
  apply Hmag. reflexivity.
Defined.

(** C4 as it is worded fails for parameters the script accepts.  With a
    positive current and [finish_i_thresh = 0] the lower cutoff is 0, which is
    not positive.  With a negative current, [finish_i_thresh = 2.0] and
    [finish_i_max = 1.0] the band is (-1.0, -2.0): [i_min] holds the smaller
    magnitude. *)
Lemma cutoffs_not_always_signed_or_ordered :
  (let a := make_args one zero 1 true zero zero one in
   gtb (hybrid_i_init a) zero = true
   /\ current_cutoffs (i_sign a) (finish_i_thresh a) (finish_i_max a)
      = (zero, one)
   /\ gtb zero zero = false)
  /\ (let a := make_args neg_one zero 1 true zero two one in
      ltb (hybrid_i_init a) zero = true
      /\ current_cutoffs (i_sign a) (finish_i_thresh a) (finish_i_max a)
         = (neg_one, opp two)
      /\ geb (abs neg_one) (abs (opp two)) = false).
Proof. cbv zeta. repeat split; reflexivity. Qed.

(** For a charging current the check reads [meas_v_end >= finish_v], for a
    discharging one [meas_v_end <= finish_v]. *)
Lemma finish_check_charging (a : args) (s : sequencer) :
  gtb (hybrid_i_init a) zero = true ->
  valid (meas_v_end s) = true -> valid (finish_v a) = true ->
  voltage_finish_reached a s =
  voltage_finish a && geb (meas_v_end s) (finish_v a).
Proof.
  intros Hpos Hv Hf. unfold voltage_finish_reached, i_sign.
  rewrite np_sign_pos by exact Hpos. now rewrite !mul_one_r.
Qed.

Lemma finish_check_discharging (a : args) (s : sequencer) :
  ltb (hybrid_i_init a) zero = true ->
  valid (meas_v_end s) = true -> valid (finish_v a) = true ->
  voltage_finish_reached a s =
  voltage_finish a && leb (meas_v_end s) (finish_v a).
Proof.
  intros Hneg Hv Hf. unfold voltage_finish_reached, i_sign.
  rewrite np_sign_neg by exact Hneg.
  now rewrite !mul_neg_one_r, geb_opp.
Qed.

(** C5.  The voltage-finish check is sign-normalized: its message is printed,
    and it raises the stop flag, exactly when voltage finish is enabled and
    [meas_v_end * i_sign >= finish_v * i_sign].  With sign +1 and
    [finish_v = 0.0] an end voltage of 0.01 triggers it; with sign -1 and the
    same [finish_v] an end voltage of -0.01 triggers it and one of 0.01 does
    not. *)
Theorem voltage_finish_check_sign_normalized
    (a : args) (s : sequencer) (elapsed : float) :
  let holds :=
    geb (mul (meas_v_end s) (i_sign a)) (mul (finish_v a) (i_sign a)) in
  (In (MsgFinishReached (meas_v_end s) (finish_v a))
      (snd (stop_decision a s elapsed))
   <-> voltage_finish a = true /\ holds = true)
  /\ (voltage_finish a = true /\ holds = true ->
      fst (stop_decision a s elapsed) = true)
  /\ (i_sign (finish_args one) = one
      /\ voltage_finish_reached (finish_args one) (seq_ending f0_01) = true)
  /\ (i_sign (finish_args neg_one) = neg_one
      /\ voltage_finish_reached (finish_args neg_one) (seq_ending (opp f0_01))
         = true
      /\ voltage_finish_reached (finish_args neg_one) (seq_ending f0_01)
         = false).
Proof.
  intros holds.
  split; [|split; [|split; [split; reflexivity|repeat split; reflexivity]]].
  - unfold stop_decision, check, voltage_finish_reached. fold holds.
    destruct (low_voltage_breach a s), (high_voltage_breach a s),
      (voltage_finish a), holds, (duration_exceeded a elapsed);
      cbn; split; intros H; try (split; reflexivity); try tauto;
      try (destruct H as [H1 H2]; discriminate);
      repeat (destruct H as [H|H]; [discriminate H|]); try contradiction.
  - intros [Hvf Hh]. apply finish_reached_stops.
    unfold voltage_finish_reached. fold holds. now rewrite Hvf, Hh.
Qed.

(** The three end voltages of C5, through the whole stop decision. *)
Lemma voltage_finish_check_sign_normalized_witness :
  fst (stop_decision (finish_args one) (seq_ending f0_01) zero) = true
  /\ fst (stop_decision (finish_args neg_one) (seq_ending (opp f0_01)) zero)
     = true
  /\ fst (stop_decision (finish_args neg_one) (seq_ending f0_01) zero) = false.
Proof.
  destruct (voltage_finish_check_sign_normalized
              (finish_args one) (seq_ending f0_01) zero) as (_ & Hup & _).
  destruct (voltage_finish_check_sign_normalized
              (finish_args neg_one) (seq_ending (opp f0_01)) zero)
    as (_ & Hdown & _).
  split; [|split; [|reflexivity]].
  - apply Hup. split; reflexivity.
  - apply Hdown. split; reflexivity.
Defined.

(** * Further properties of the script *)

(** ** The events of a cycle, by kind *)

Lemma stop_decision_quiet a s elapsed :
  fst (stop_decision a s elapsed) = false -> snd (stop_decision a s elapsed) = [].
Proof.
  unfold stop_decision, check.
  destruct (low_voltage_breach a s), (high_voltage_breach a s),
    (voltage_finish_reached a s), (duration_exceeded a elapsed);
    cbn; intros H; try discriminate H; reflexivity.
Qed.

Lemma stop_messages_iff_stop a s elapsed :
  existsb is_stop_message (map Print (snd (stop_decision a s elapsed)))
  = fst (stop_decision a s elapsed).
Proof.
  unfold stop_decision, check.
  destruct (low_voltage_breach a s), (high_voltage_breach a s),
    (voltage_finish_reached a s), (duration_exceeded a elapsed); reflexivity.
Qed.

Lemma stop_message_in_cycle a env n :
  existsb is_stop_message (cycle_events_at a env n) = stop_fires a env n.
Proof.
  unfold cycle_events_at, cycle_events, stop_branch_events. cbn.
  rewrite existsb_app, stop_messages_iff_stop. fold (stop_fires a env n).
  destruct (stop_fires a env n); [reflexivity|]. reflexivity.
Qed.

Lemma quiet_cycle a env n :
  stop_fires a env n = false ->
  cycle_events_at a env n = quiet_cycle_events a n.
Proof.
  intros H. unfold cycle_events_at, cycle_events, quiet_cycle_events, directives.
  rewrite H. cbn [fst snd].
  rewrite stop_decision_quiet by exact H. reflexivity.
Qed.

Lemma finish_events_in_cycle a env n :
  filter is_finish_event (cycle_events_at a env n) = [].
Proof.
  unfold cycle_events_at, cycle_events, stop_branch_events. cbn.
  rewrite filter_app.
  assert (Hm : filter is_finish_event
                 (map Print (snd (stop_decision a (seq_after_hybrid env n)
                    (elapsed_time (time_at_start env) (time_in_cycle env n)))))
               = []).
  { unfold stop_decision, check.
    destruct (low_voltage_breach _ _), (high_voltage_breach _ _),
      (voltage_finish_reached _ _), (duration_exceeded _ _); reflexivity. }
  rewrite Hm. destruct (stop_fires a env n); [|reflexivity].
  destruct (is_open (pstat_after_hybrid env n)); reflexivity.
Qed.

Lemma finish_events_in_cycles a env ns :
  filter is_finish_event (flat_map (cycle_events_at a env) ns) = [].
Proof.
  induction ns as [|n ns IH]; [reflexivity|].
  cbn [flat_map]. now rewrite filter_app, finish_events_in_cycle, IH.
Qed.

(** The cycles that are run are a prefix of the configured ones. *)
Lemma run_until_stop_prefix a env ns :
  exists rest, ns = run_until_stop a env ns ++ rest.
Proof.
  induction ns as [|n ns [rest IH]]; [exists []; reflexivity|].
  cbn. destruct (stop_fires a env n).
  - exists ns. reflexivity.
  - exists rest. cbn. now rewrite <- IH.
Qed.

(** Whether a stop decision fires in one of the cycles [ns]. *)
Lemma no_stop_iff a env ns :
  existsb (stop_fires a env) ns = false <->
  forall n, In n ns -> stop_fires a env n = false.
Proof.
  induction ns as [|n ns IH]; cbn.
  - split; [intros _ n []|reflexivity].
  - rewrite orb_false_iff, IH. split.
    + intros [Hn Hns] m [<-|Hm]; [exact Hn|apply Hns, Hm].
    + intros H. split; [apply H; left; reflexivity|].
      intros m Hm. apply H. right; exact Hm.
Qed.

(** A stop message is printed in the cycles that are run exactly when a stop
    decision fires. *)
Lemma stop_message_run a env ns :
  existsb is_stop_message
    (flat_map (cycle_events_at a env) (run_until_stop a env ns))
  = existsb (stop_fires a env) ns.
Proof.
  induction ns as [|n ns IH]; [reflexivity|].
  cbn [run_until_stop existsb]. destruct (stop_fires a env n) eqn:Hstop.
  - cbn [flat_map]. now rewrite app_nil_r, stop_message_in_cycle, Hstop.
  - cbn [flat_map]. now rewrite existsb_app, stop_message_in_cycle, Hstop, IH.
Qed.

(** The instrument commands of the cycles that are run: none while no stop
    decision fires, then those of the stop branch of the cycle that stops. *)
Lemma pstat_commands_run a env ns :
  (existsb (stop_fires a env) ns = false /\
   filter is_pstat_command
     (flat_map (cycle_events_at a env) (run_until_stop a env ns)) = [])
  \/ (existsb (stop_fires a env) ns = true /\
      exists k, In k ns /\
        filter is_pstat_command
          (flat_map (cycle_events_at a env) (run_until_stop a env ns))
        = stop_branch_events (pstat_after_hybrid env k)).
Proof.
  induction ns as [|n ns IH].
  - left. split; reflexivity.
  - cbn [run_until_stop existsb]. destruct (stop_fires a env n) eqn:Hstop.
    + right. split; [reflexivity|]. exists n. split; [left; reflexivity|].
      cbn [flat_map]. now rewrite app_nil_r, pstat_commands_cycle, Hstop.
    + cbn [flat_map orb]. rewrite filter_app, pstat_commands_cycle, Hstop.
      cbn [app]. destruct IH as [[Hno IH]|[Hyes [k [Hin IH]]]].
      * left. split; assumption.
      * right. split; [exact Hyes|]. exists k. split; [right; exact Hin|exact IH].
Qed.

(** ** The instrument is addressed at most once *)

(** X1.  In a whole run the script addresses the instrument handle at most
    once, in the stop branch of the cycle whose stop decision fires: it asks
    whether the session is open and either leaves it at that, or commands the
    cell off and, directly after, closes the session.  It never closes a
    session without commanding the cell off first, and never does either
    twice.  It addresses the instrument exactly when it printed a stop
    message, and not at all exactly when no stop decision of a configured
    cycle fires. *)
Theorem instrument_commands_of_a_run (a : args) (env : environment) :
  let tr := trace (main a env) in
  let cmds := filter is_pstat_command tr in
  (cmds = [] \/ cmds = [TestIsOpen false]
   \/ cmds = [TestIsOpen true; SetCellOff; ClosePstat])
  /\ (cmds = [] <->
      forall n, 0 <= n < max_repeats a -> stop_fires a env n = false)
  /\ (existsb is_stop_message tr = true <-> cmds <> []).
Proof.
  intros tr cmds.
  assert (Hcmds : cmds =
            filter is_pstat_command
              (flat_map (cycle_events_at a env)
                 (run_until_stop a env (range (max_repeats a))))).
  { subst cmds tr. rewrite main_trace, !filter_app, pstat_commands_conditioning.
    destruct (finish_events_plain a env) as (_ & Hf & _).
    destruct (voltage_finish a); rewrite ?Hf; cbn; now rewrite app_nil_r. }
  assert (Hmsg : existsb is_stop_message tr =
                 existsb (stop_fires a env) (range (max_repeats a))).
  { subst tr. rewrite main_trace, !existsb_app, no_stop_message_in_conditioning.
    rewrite stop_message_run.
    destruct (finish_events_plain a env) as (_ & _ & _ & Hf).
    destruct (voltage_finish a); rewrite ?Hf; cbn; now rewrite orb_false_r. }
  assert (Hrange : existsb (stop_fires a env) (range (max_repeats a)) = false
                   <-> forall n, 0 <= n < max_repeats a ->
                         stop_fires a env n = false).
  { rewrite no_stop_iff. split; intros H n Hn; apply H, in_range, Hn. }
  rewrite Hmsg.
  destruct (pstat_commands_run a env (range (max_repeats a)))
    as [[Hno Hnone]|[Hyes [k [_ Hsome]]]];
    rewrite <- Hcmds in *.
  - split; [left; exact Hnone|]. split.
    + split; [intros _; apply Hrange, Hno|intros _; exact Hnone].
    + rewrite Hno, Hnone. split; [discriminate|intros H; now elim H].
  - assert (Hne : cmds <> [])
      by (rewrite Hsome; unfold stop_branch_events; discriminate).
    split; [|split].
    + rewrite Hsome. unfold stop_branch_events.
      destruct (is_open (pstat_after_hybrid env k)); auto.
    + split; [intros H; now elim Hne|].
      intros H. apply Hrange in H. congruence.
    + rewrite Hyes. split; [intros _; exact Hne|reflexivity].
Qed.

(** ** The voltage finish closes every run that enables it *)

Lemma finish_events_in_conditioning a :
  filter is_finish_event (conditioning_events a) = [].
Proof. unfold conditioning_events. destruct (conditioning_runs a); reflexivity. Qed.

Lemma negative_not_geb_zero (x : float) :
  ltb x zero = true -> geb x zero = false.
Proof.
  destruct x as [s|s| |s m e]; try destruct s; intros H;
    try discriminate H; reflexivity.
Qed.

(** X2.  The voltage finish does not depend on how the loop was left.  When
    it is enabled, every run goes on after the loop, also after the stop
    branch has turned the cell off and closed the session, with the rest
    message and the call of [time.sleep].  When the wait returns, the limits
    message and one potentiostatic run follow, with the finish voltage,
    duration and sample time of the configuration and the cutoffs computed
    from the current sign, and the instrument handle is left as that run
    leaves it.  When [time.sleep] raises, as it does for a rest that is NaN,
    negative or infinite, the script ends there: no potentiostatic run is
    made and the handle stays as the loop left it.  Before the loop is left,
    and when the voltage finish is disabled, none of its events occurs. *)
Theorem voltage_finish_ends_the_run (a : args) (env : environment) :
  let band := current_cutoffs (i_sign a) (finish_i_thresh a) (finish_i_max a) in
  let rest := finish_rest_time a in
  let completed :=
    [Sleep rest;
     Print (MsgFinishLimits (fst band) (snd band));
     PstaticRun (finish_v a) (finish_duration a) (finish_t_sample a)
       (fst band) (snd band)
       {| directory := data_path a;
          name := "PSTATIC-FINISH_" ++ file_suffix a ++ ".DTA" |}
       (kst_file_of a)] in
  trace (main a env) =
    trace (after_loop a env) ++
    (if voltage_finish a then
       Print (MsgRestBeforeFinish rest) ::
       (if time_sleep_returns env rest then completed else [SleepRaises rest])
     else [])
  /\ filter is_finish_event (trace (after_loop a env)) = []
  /\ existsb is_pstatic_run (trace (after_loop a env)) = false
  /\ existsb is_pstatic_run (trace (main a env)) =
     voltage_finish a && time_sleep_returns env rest
  /\ pstat (main a env) =
     (if voltage_finish a && time_sleep_returns env rest
      then pstat_after_pstatic env else pstat (after_loop a env))
  /\ (is_nan rest = true \/ ltb rest zero = true \/ is_finite rest = false ->
      time_sleep_returns env rest = false).
Proof.
  intros band rest completed.
  assert (Hloop : filter is_finish_event (trace (after_loop a env)) = []).
  { rewrite after_loop_trace, filter_app, finish_events_in_conditioning.
    apply finish_events_in_cycles. }
  assert (Hnone : existsb is_pstatic_run (trace (after_loop a env)) = false).
  { destruct (existsb is_pstatic_run (trace (after_loop a env))) eqn:E;
      [|reflexivity].
    apply existsb_exists in E. destruct E as [e [Hin He]].
    assert (Hf : In e (filter is_finish_event (trace (after_loop a env)))).
    { apply filter_In. split; [exact Hin|]. destruct e; try discriminate He.
      reflexivity. }
    rewrite Hloop in Hf. destruct Hf. }
  assert (Hmain : trace (main a env) =
    trace (after_loop a env) ++
    (if voltage_finish a then
       Print (MsgRestBeforeFinish rest) ::
       (if time_sleep_returns env rest then completed else [SleepRaises rest])
     else []))
    by (unfold main; apply finish_trace).
  split; [exact Hmain|]. split; [exact Hloop|]. split; [exact Hnone|].
  split; [|split].
  - rewrite Hmain, existsb_app, Hnone.
    destruct (voltage_finish a); [|reflexivity].
    destruct (time_sleep_returns env rest); reflexivity.
  - unfold main, finish. fold rest.
    destruct (voltage_finish a); [|reflexivity].
    destruct (time_sleep_returns env rest); [|reflexivity].
    destruct (current_cutoffs _ _ _). reflexivity.
  - unfold time_sleep_returns. intros [H|[H|H]].
    + now rewrite H.
    + rewrite (negative_not_geb_zero _ H). now rewrite andb_false_r.
    + rewrite H. now rewrite andb_false_r.
Qed.

(** A negative rest after a run of one cycle: the rest message, then the
    exception; the handle stays as the hybrid invocation left it. *)
Lemma voltage_finish_ends_the_run_witness :
  let a := with_finish_rest_time neg_one
             (make_args one zero 1 true two f0_005 one) in
  let env := quiet_env pstat_closed_off in
  time_sleep_returns env (finish_rest_time a) = false
  /\ existsb is_pstatic_run (trace (main a env)) = false
  /\ pstat (main a env) = pstat_closed_off.
Proof.
  intros a env.
  destruct (voltage_finish_ends_the_run a env) as (_ & _ & _ & Hrun & Hp & Hneg).
  assert (Hs : time_sleep_returns env (finish_rest_time a) = false)
    by (apply Hneg; right; left; reflexivity).
  split; [exact Hs|]. split.
  - rewrite Hrun, Hs. reflexivity.
  - rewrite Hp, Hs. reflexivity.
Defined.

(** ** A run that nothing stops *)

Lemma quiet_cycles a env ns :
  (forall n, In n ns -> stop_fires a env n = false) ->
  flat_map (cycle_events_at a env) ns = flat_map (quiet_cycle_events a) ns.
Proof.
  induction ns as [|n ns IH]; intros H; [reflexivity|].
  cbn [flat_map]. rewrite quiet_cycle by (apply H; left; reflexivity).
  rewrite IH; [reflexivity|]. intros m Hm. apply H. right; exact Hm.
Qed.

Lemma cycles_pstat_no_stop a env : forall ns st,
  (forall n, In n ns -> stop_fires a env n = false) ->
  pstat (cycles a env ns st) =
  match rev ns with
  | [] => pstat st
  | n :: _ => pstat_after_hybrid env n
  end.
Proof.
  induction ns as [|n ns IH] using rev_ind; intros st H; [reflexivity|].
  rewrite cycles_app_no_stop
    by (intros m Hm; apply H, in_or_app; left; exact Hm).
  rewrite rev_app_distr. cbn [rev app].
  rewrite cycles_cons, (H n) by (apply in_or_app; right; left; reflexivity).
  cbn [cycles]. rewrite cycle_pstat.
  now rewrite (H n) by (apply in_or_app; right; left; reflexivity).
Qed.

(** X3.  When no stop decision fires in any configured cycle, the run is the
    conditioning step (if any), then for each cycle 0, ..., N-1 exactly the
    begin message, the hybrid invocation and the rest message (which is
    printed after the last cycle too), then the voltage finish (if enabled).
    The script itself never addresses the instrument in such a run: after
    N >= 1 cycles the instrument is, when the loop is left, in the state the
    last hybrid measurement, told not to leave the cell on, left it in. *)
Theorem run_without_stop (a : args) (env : environment) :
  (forall n, 0 <= n < max_repeats a -> stop_fires a env n = false) ->
  trace (main a env) =
    conditioning_events a
    ++ flat_map (quiet_cycle_events a) (range (max_repeats a))
    ++ (if voltage_finish a then finish_events a env else [])
  /\ filter is_pstat_command (trace (main a env)) = []
  /\ (1 <= max_repeats a ->
      pstat (after_loop a env) = pstat_after_hybrid env (max_repeats a - 1)
      /\ exists before sfx s_off,
           trace (after_loop a env) =
           before ++ [RunHybrid sfx s_off false;
                      Print (MsgRestBetween (hybrid_rest_time a))]).
Proof.
  intros Hno.
  assert (Hin : forall n, In n (range (max_repeats a)) ->
                  stop_fires a env n = false)
    by (intros n Hn; apply Hno, in_range, Hn).
  assert (Htr : trace (main a env) =
    conditioning_events a
    ++ flat_map (quiet_cycle_events a) (range (max_repeats a))
    ++ (if voltage_finish a then finish_events a env else [])).
  { rewrite main_trace, run_until_stop_no_stop by exact Hin.
    now rewrite quiet_cycles by exact Hin. }
  split; [exact Htr|]. split.
  - rewrite main_trace, !filter_app, pstat_commands_conditioning.
    rewrite run_until_stop_no_stop, pstat_commands_no_stop by exact Hin.
    destruct (finish_events_plain a env) as (_ & Hf & _).
    destruct (voltage_finish a); [exact Hf|reflexivity].
  - intros HN.
    assert (Hlast : range (max_repeats a) =
                    range (max_repeats a - 1) ++ [max_repeats a - 1]).
    { rewrite <- range_succ by lia. f_equal. lia. }
    split.
    + unfold after_loop.
      rewrite cycles_pstat_no_stop by exact Hin.
      rewrite Hlast, rev_app_distr. reflexivity.
    + rewrite after_loop_trace, run_until_stop_no_stop by exact Hin.
      rewrite quiet_cycles by exact Hin.
      rewrite Hlast, flat_map_app.
      cbn [flat_map]. rewrite app_nil_r. unfold quiet_cycle_events at 2.
      rewrite Z.eqb_refl. cbn [negb].
      exists (conditioning_events a ++
              flat_map (quiet_cycle_events a) (range (max_repeats a - 1)) ++
              [Print (MsgBeginCycle (max_repeats a - 1))]).
      do 2 eexists. rewrite <- !app_assoc. reflexivity.
Qed.

(** Conditioning, three cycles in which nothing stops the run, no voltage
    finish. *)
Lemma run_without_stop_witness :
  let a := make_args one f600 3 false zero f0_005 one in
  let env := quiet_env pstat_closed_off in
  List.length (trace (main a env)) = 11%nat
  /\ filter is_pstat_command (trace (main a env)) = []
  /\ pstat (after_loop a env) = pstat_closed_off.
Proof.
  intros a env.
  destruct (run_without_stop a env) as (Htr & Hcmd & Hlast);
    [intros n _; reflexivity|].
  split; [rewrite Htr; reflexivity|]. split; [exact Hcmd|].
  destruct Hlast as [Hp _]; [cbn; lia|]. rewrite Hp. reflexivity.
Defined.

(** ** Whatever stops the run *)

(** X4.  Whichever of the four checks fires first, and in whichever cycle k
    (the last configured one included): the run has exactly k+1 hybrid
    invocations and the session is closed when the loop is left.  When the
    run is stopped before the last configured cycle, every invocation was
    told to leave the cell on, so turning the cell off is left to the stop
    branch; in the last configured cycle the invocation was told not to. *)
Theorem first_stop_ends_the_run (a : args) (env : environment) (k : Z) :
  0 <= k < max_repeats a ->
  (forall j, 0 <= j < k -> stop_fires a env j = false) ->
  stop_fires a env k = true ->
  List.length (hybrid_calls (trace (main a env))) = Z.to_nat (k + 1)
  /\ map snd (hybrid_calls (trace (main a env))) =
     (if k =? max_repeats a - 1
      then repeat true (Z.to_nat k) ++ [false]
      else repeat true (Z.to_nat (k + 1)))
  /\ is_open (pstat (after_loop a env)) = false.
Proof.
  intros Hk Hbefore Hstop.
  destruct (after_loop_stops_at a env k Hk Hbefore Hstop) as [Hrun [st0 Hst]].
  split; [|split].
  - now rewrite main_hybrid_calls, Hrun, length_map, length_range.
  - rewrite main_hybrid_calls, Hrun, map_map. cbn [directives snd].
    rewrite range_succ, map_app by lia. cbn [map].
    rewrite map_all_true, length_range.
    + destruct (k =? max_repeats a - 1); [reflexivity|]. cbn [negb].
      replace (Z.to_nat (k + 1)) with (Z.to_nat k + 1)%nat by lia.
      now rewrite repeat_app.
    + intros n Hn. apply in_range in Hn.
      apply negb_true_iff, Z.eqb_neq. lia.
  - rewrite Hst, cycle_pstat, Hstop.
    destruct (is_open (pstat_after_hybrid env k)) eqn:Hp; [reflexivity|exact Hp].
Qed.

(** The duration is reached in cycle 1 of 10: two invocations, both told to
    leave the cell on. *)
Lemma first_stop_ends_the_run_witness :
  let a := make_args one zero 10 false zero f0_005 one in
  List.length (hybrid_calls (trace (main a late_env))) = 2%nat
  /\ map snd (hybrid_calls (trace (main a late_env))) = [true; true]
  /\ is_open (pstat (after_loop a late_env)) = false.
Proof.
  intros a.
  apply (first_stop_ends_the_run a late_env 1); [cbn; lia | | reflexivity].
  intros j Hj. replace j with 0 by lia. reflexivity.
Defined.

(** ** Output identifiers *)

Lemma hybrid_suffixes_app (t1 t2 : list event) :
  hybrid_suffixes (t1 ++ t2) = hybrid_suffixes t1 ++ hybrid_suffixes t2.
Proof.
  induction t1 as [|e t1 IH]; [reflexivity|].
  destruct e; simpl; rewrite IH; reflexivity.
Qed.

Lemma hybrid_suffixes_prints (ms : list message) :
  hybrid_suffixes (map Print ms) = [].
Proof. induction ms; simpl; auto. Qed.

Lemma hybrid_suffixes_cycles a env ns :
  hybrid_suffixes (flat_map (cycle_events_at a env) ns)
  = map (cycle_suffix a) ns.
Proof.
  induction ns as [|n ns IH]; [reflexivity|].
  cbn [flat_map map]. rewrite hybrid_suffixes_app, IH. f_equal.
  unfold cycle_events_at, cycle_events, stop_branch_events. cbn.
  rewrite hybrid_suffixes_app, hybrid_suffixes_prints.
  destruct (stop_fires a env n); [|reflexivity].
  destruct (is_open (pstat_after_hybrid env n)); reflexivity.
Qed.

Lemma main_hybrid_suffixes a env :
  hybrid_suffixes (trace (main a env)) =
  map (cycle_suffix a) (run_until_stop a env (range (max_repeats a))).
Proof.
  rewrite main_trace, !hybrid_suffixes_app, hybrid_suffixes_cycles.
  unfold conditioning_events, finish_events, finish_run_events.
  destruct (conditioning_runs a), (voltage_finish a);
    try destruct (time_sleep_returns env (finish_rest_time a)); cbn;
    now rewrite ?app_nil_r.
Qed.

Lemma append_inj_r (s x y : string) :
  (s ++ x)%string = (s ++ y)%string -> x = y.
Proof.
  induction s as [|c s IH]; cbn; intros H; [exact H|].
  injection H as H. apply IH, H.
Qed.

(** The decimal numerals of two integers differ when the integers do. *)
Lemma decimal_inj (n m : Z) :
  NilEmpty.string_of_int (Z.to_int n) = NilEmpty.string_of_int (Z.to_int m) ->
  n = m.
Proof.
  intros H. apply DecimalZ.to_int_inj.
  assert (E : Some (Z.to_int n) = Some (Z.to_int m))
    by (rewrite <- !NilEmpty.isi; now rewrite H).
  now injection E.
Qed.

Lemma range_NoDup (N : Z) : NoDup (range N).
Proof.
  unfold range. apply NoDup_map_NoDup_ForallPairs; [|apply seq_NoDup].
  intros x y _ _ H. lia.
Qed.

(** X5.  No two hybrid invocations of a run get the same output identifier,
    so no cycle overwrites the files of another: with more than one cycle
    configured the identifier of cycle n is the file suffix followed by
    "_Cycle" and n in decimal, and otherwise there is at most one invocation,
    which gets the file suffix unchanged. *)
Theorem cycle_suffixes_distinct (a : args) (env : environment) :
  NoDup (hybrid_suffixes (trace (main a env)))
  /\ (forall n sfx,
        nth_error (hybrid_suffixes (trace (main a env))) n = Some sfx ->
        sfx = if 1 <? max_repeats a
              then (file_suffix a ++ "_Cycle"
                    ++ NilEmpty.string_of_int (Z.to_int (Z.of_nat n)))%string
              else file_suffix a).
Proof.
  rewrite main_hybrid_suffixes. split.
  - destruct (run_until_stop_prefix a env (range (max_repeats a)))
      as [rest Hpre].
    assert (Hnd : NoDup (run_until_stop a env (range (max_repeats a)))).
    { apply (NoDup_app_remove_r _ rest). rewrite <- Hpre. apply range_NoDup. }
    assert (Hsub : forall n,
              In n (run_until_stop a env (range (max_repeats a))) ->
              0 <= n < max_repeats a).
    { intros n Hn. apply in_range. rewrite Hpre.
      apply in_or_app. left; exact Hn. }
    apply NoDup_map_NoDup_ForallPairs; [|exact Hnd].
    intros x y Hx Hy. unfold cycle_suffix.
    apply Hsub in Hx. apply Hsub in Hy.
    destruct (Z.ltb_spec 1 (max_repeats a)) as [HN|HN]; [|lia].
    intros H. apply append_inj_r, append_inj_r in H.
    apply decimal_inj, H.
  - intros n sfx H. rewrite nth_error_map in H.
    destruct (nth_error _ n) as [m|] eqn:Hm; [|discriminate].
    injection H as <-.
    apply nth_error_run_until_stop, nth_error_range_seq in Hm. subst m.
    reflexivity.
Qed.

(** Three cycles: three different identifiers. *)
Lemma cycle_suffixes_distinct_witness :
  let a := make_args one zero 3 false zero f0_005 one in
  let env := quiet_env pstat_open_on in
  hybrid_suffixes (trace (main a env)) = ["run_Cycle0"; "run_Cycle1"; "run_Cycle2"]%string
  /\ NoDup (hybrid_suffixes (trace (main a env)))
  /\ "run_Cycle2"%string =
     (file_suffix a ++ "_Cycle"
      ++ NilEmpty.string_of_int (Z.to_int (Z.of_nat 2)))%string.
Proof.
  intros a env.
  destruct (cycle_suffixes_distinct a env) as [Hnd Hnth].
  split; [reflexivity|]. split; [exact Hnd|].
  apply (Hnth 2%nat). reflexivity.
Defined.

(** ** The conditioning step *)

(** X6.  When [condition_time > 0] the run begins with the conditioning
    message and one chronopotentiometry run: at the initial current, for
    [condition_time] at [condition_t_sample], told to leave the cell on,
    written to "Conditioning_<suffix>.DTA" in the data path; no other
    conditioning run follows, and the hybrid invocations are the same as
    without conditioning except that none starts with the cell off.  A
    [condition_time] that is zero, negative or NaN skips the step: the run
    then begins with cycle 0, and all that happens up to the end of the loop
    are the events of the cycles that are run. *)
Theorem conditioning_step (a : args) (env : environment) :
  (conditioning_runs a = true ->
   exists rest,
     trace (main a env) =
       Print (MsgConditioning (hybrid_i_init a) (condition_time a))
       :: ChronoRun (hybrid_i_init a) (condition_time a)
            (condition_t_sample a) true
            {| directory := data_path a;
               name := "Conditioning_" ++ file_suffix a ++ ".DTA" |}
            (kst_file_of a)
       :: rest
     /\ existsb is_chrono_run rest = false
     /\ map fst (hybrid_calls rest) =
        repeat false (List.length (hybrid_calls rest)))
  /\ (conditioning_runs a = false ->
      trace (after_loop a env) =
        flat_map (cycle_events_at a env)
          (run_until_stop a env (range (max_repeats a)))
      /\ exists rest,
           trace (main a env) = trace (after_loop a env) ++ rest
           /\ hybrid_calls rest = [])
  /\ (leb (condition_time a) zero = true \/ is_nan (condition_time a) = true ->
      conditioning_runs a = false).
Proof.
  split; [|split].
  - intros Hc. rewrite main_trace. unfold conditioning_events. rewrite Hc.
    cbn [app]. eexists. split; [reflexivity|]. split.
    + rewrite existsb_app, no_chrono_in_cycles.
      destruct (finish_events_plain a env) as (_ & _ & Hf & _).
      destruct (voltage_finish a); [exact Hf|reflexivity].
    + rewrite hybrid_calls_app, hybrid_calls_cycles.
      assert (Hf : hybrid_calls
                     (if voltage_finish a then finish_events a env else [])
                   = []).
      { destruct (finish_events_plain a env) as (Hf & _).
        destruct (voltage_finish a); [exact Hf|reflexivity]. }
      rewrite Hf, app_nil_r, map_map, length_map.
      generalize (run_until_stop a env (range (max_repeats a))).
      induction l as [|n l IH]; [reflexivity|].
      cbn [map List.length repeat]. f_equal; [|exact IH].
      cbn [directives fst]. rewrite Hc. apply andb_false_r.
  - intros Hc. split.
    + rewrite after_loop_trace. unfold conditioning_events. now rewrite Hc.
    + exists (if voltage_finish a then finish_events a env else []).
      split; [unfold main; apply finish_trace|].
      destruct (finish_events_plain a env) as (Hf & _).
      destruct (voltage_finish a); [exact Hf|reflexivity].
  - unfold conditioning_runs. destruct (condition_time a) as [s|s| |s m e];
      try destruct s; cbn; intros [H|H]; try discriminate; reflexivity.
Qed.

(** Conditioning for 600 s before two cycles. *)
Lemma conditioning_step_witness :
  let a := make_args one f600 2 false zero f0_005 one in
  let env := quiet_env pstat_open_on in
  exists rest,
    trace (main a env) =
      Print (MsgConditioning one f600)
      :: ChronoRun one f600 f0_001 true
           {| directory := "."; name := "Conditioning_run.DTA" |} None
      :: rest
    /\ existsb is_chrono_run rest = false
    /\ map fst (hybrid_calls rest) =
       repeat false (List.length (hybrid_calls rest)).
Proof.
  intros a env.
  destruct (conditioning_step a env) as [Hrun _].
  apply Hrun. reflexivity.
Defined.

(** ** The direction of the voltage finish *)

Lemma mul_nan_r (x : float) : mul x S754_nan = S754_nan.
Proof. destruct x; reflexivity. Qed.

Lemma np_sign_nan (x : float) : is_nan x = true -> np_sign x = S754_nan.
Proof. destruct x; try discriminate; reflexivity. Qed.

(** X7.  What the sign-normalized finish check means for the voltages.  For a
    positive initial current (charging) it holds when the end voltage has
    risen to the finish voltage, [meas_v_end >= finish_v]; for a negative one
    (discharging) when it has fallen to it, [meas_v_end <= finish_v]:
    multiplying by the sign +1.0 or -1.0 is exact, so no rounding enters the
    comparison.  For an initial current that is NaN the check never holds. *)
Theorem finish_check_direction (a : args) (s : sequencer) :
  valid (meas_v_end s) = true ->
  valid (finish_v a) = true ->
  (gtb (hybrid_i_init a) zero = true ->
   voltage_finish_reached a s =
   voltage_finish a && geb (meas_v_end s) (finish_v a))
  /\ (ltb (hybrid_i_init a) zero = true ->
      voltage_finish_reached a s =
      voltage_finish a && leb (meas_v_end s) (finish_v a))
  /\ (is_nan (hybrid_i_init a) = true ->
      voltage_finish_reached a s = false).
Proof.
  intros Hv Hf. split; [|split].
  - intros H. apply finish_check_charging; assumption.
  - intros H. apply finish_check_discharging; assumption.
  - intros H. unfold voltage_finish_reached, i_sign.
    rewrite np_sign_nan by exact H. rewrite !mul_nan_r. apply andb_false_r.
Qed.

(** Finish at 0.0 V: charging, 0.01 V has reached it; discharging, 0.01 V has
    not and -0.01 V has. *)
Lemma finish_check_direction_witness :
  voltage_finish_reached (finish_args one) (seq_ending f0_01)
  = true && geb f0_01 zero
  /\ voltage_finish_reached (finish_args neg_one) (seq_ending f0_01)
     = true && leb f0_01 zero
  /\ voltage_finish_reached (finish_args neg_one) (seq_ending (opp f0_01))
     = true && leb (opp f0_01) zero.
Proof.
  destruct (finish_check_direction (finish_args one) (seq_ending f0_01))
    as (Hup & _); [reflexivity|reflexivity|].
  destruct (finish_check_direction (finish_args neg_one) (seq_ending f0_01))
    as (_ & Hdown & _); [reflexivity|reflexivity|].
  destruct (finish_check_direction (finish_args neg_one)
              (seq_ending (opp f0_01)))
    as (_ & Hdown' & _); [reflexivity|reflexivity|].
  split; [apply Hup; reflexivity|].
  split; [apply Hdown; reflexivity|apply Hdown'; reflexivity].
Defined.

(** ** The cutoff band *)

Lemma gtb_np_sign (x : float) : gtb (np_sign x) zero = gtb x zero.
Proof. destruct x as [s|s| |s m e]; try destruct s; reflexivity. Qed.

(** X8.  The branch of the cutoff computation is chosen by the initial
    current itself: the first branch is taken exactly when
    [hybrid_i_init > 0].  For an initial current other than zero and
    parameters with |finish_i_thresh| <= |finish_i_max| the band is ordered,
    [i_min <= i_max], for either sign: mirroring the band for a negative
    current keeps the lower cutoff below the upper one. *)
Theorem cutoff_band_ordered (a : args) :
  valid (finish_i_thresh a) = true ->
  valid (finish_i_max a) = true ->
  let band := current_cutoffs (i_sign a) (finish_i_thresh a) (finish_i_max a) in
  gtb (i_sign a) zero = gtb (hybrid_i_init a) zero
  /\ (leb (abs (finish_i_thresh a)) (abs (finish_i_max a)) = true ->
      gtb (hybrid_i_init a) zero = true \/ ltb (hybrid_i_init a) zero = true ->
      leb (fst band) (snd band) = true).
Proof.
  intros Hth Him band. split; [apply gtb_np_sign|].
  intros Hle [Hpos|Hneg]; subst band; unfold current_cutoffs, i_sign.
  - rewrite np_sign_pos by exact Hpos. exact Hle.
  - rewrite np_sign_neg by exact Hneg.
    change (gtb neg_one zero) with false. cbn iota. cbn [fst snd].
    rewrite !mul_neg_one_r by (apply valid_abs; assumption).
    rewrite <- geb_opp in Hle. unfold geb in Hle. exact Hle.
Qed.

(** The defaults with a negative current: -1.0 <= -0.005. *)
Lemma cutoff_band_ordered_witness :
  let a := finish_args neg_one in
  gtb (i_sign a) zero = false
  /\ leb (fst (current_cutoffs (i_sign a) (finish_i_thresh a) (finish_i_max a)))
         (snd (current_cutoffs (i_sign a) (finish_i_thresh a) (finish_i_max a)))
     = true.
Proof.
  intros a.
  destruct (cutoff_band_ordered a) as [Hbranch Hord];
    [reflexivity|reflexivity|].
  split; [rewrite Hbranch; reflexivity|].
  apply Hord; [reflexivity|right; reflexivity].
Defined.

(** ** Readings that are not numbers *)

Lemma leb_nan_l (x : float) : leb S754_nan x = false.
Proof. reflexivity. Qed.

Lemma leb_nan_r (x : float) : leb x S754_nan = false.
Proof. destruct x as [s|s| |s m e]; reflexivity. Qed.

Lemma mul_nan_l (x : float) : mul S754_nan x = S754_nan.
Proof. reflexivity. Qed.

(** X9.  A measured voltage that is NaN is never beyond a limit: the low
    check is false for a NaN minimum, the high check for a NaN maximum and the
    finish check for a NaN end voltage, as they are for a limit that is NaN.
    In a run whose readings are all NaN only the duration check can stop the
    loop. *)
Theorem nan_readings_never_breach (a : args) (env : environment) :
  (forall s,
     (is_nan (meas_v_min s) = true \/ is_nan (stop_v_min a) = true ->
      low_voltage_breach a s = false)
     /\ (is_nan (meas_v_max s) = true \/ is_nan (stop_v_max a) = true ->
         high_voltage_breach a s = false)
     /\ (is_nan (meas_v_end s) = true \/ is_nan (finish_v a) = true ->
         voltage_finish_reached a s = false))
  /\ ((forall n, is_nan (meas_v_min (seq_after_hybrid env n)) = true
                 /\ is_nan (meas_v_max (seq_after_hybrid env n)) = true
                 /\ is_nan (meas_v_end (seq_after_hybrid env n)) = true) ->
      forall n, stop_fires a env n =
                duration_exceeded a (elapsed_in_cycle env n)).
Proof.
  assert (Hall : forall s,
     (is_nan (meas_v_min s) = true \/ is_nan (stop_v_min a) = true ->
      low_voltage_breach a s = false)
     /\ (is_nan (meas_v_max s) = true \/ is_nan (stop_v_max a) = true ->
         high_voltage_breach a s = false)
     /\ (is_nan (meas_v_end s) = true \/ is_nan (finish_v a) = true ->
         voltage_finish_reached a s = false)).
  { intros s. split; [|split].
    - unfold low_voltage_breach. intros [H|H].
      + destruct (meas_v_min s); try discriminate. apply leb_nan_l.
      + destruct (stop_v_min a); try discriminate. apply leb_nan_r.
    - unfold high_voltage_breach, geb. intros [H|H].
      + destruct (meas_v_max s); try discriminate. apply leb_nan_r.
      + destruct (stop_v_max a); try discriminate. apply leb_nan_l.
    - unfold voltage_finish_reached, geb. intros [H|H].
      + destruct (meas_v_end s); try discriminate.
        rewrite mul_nan_l. fold (leb (mul (finish_v a) (i_sign a)) S754_nan).
        rewrite leb_nan_r. apply andb_false_r.
      + destruct (finish_v a); try discriminate.
        rewrite mul_nan_l. apply andb_false_r. }
  split; [exact Hall|].
  intros Hnan n. destruct (Hnan n) as (Hmin & Hmax & Hend).
  destruct (Hall (seq_after_hybrid env n)) as (Hlow & Hhigh & Hfin).
  unfold stop_fires, stop_decision, check.
  rewrite Hlow, Hhigh, Hfin by (left; assumption).
  fold (elapsed_in_cycle env n).
  destruct (duration_exceeded a (elapsed_in_cycle env n)); reflexivity.
Qed.

(** Three cycles whose readings are all NaN, no time passing: the stop
    decision never fires. *)
Lemma nan_readings_never_breach_witness :
  let a := make_args one zero 3 true zero f0_005 one in
  low_voltage_breach a nan_seq = false
  /\ high_voltage_breach a nan_seq = false
  /\ voltage_finish_reached a nan_seq = false
  /\ forall n, stop_fires a nan_env n =
               duration_exceeded a (elapsed_in_cycle nan_env n).
Proof.
  intros a.
  destruct (nan_readings_never_breach a nan_env) as [Hall Hrun].
  destruct (Hall nan_seq) as (Hlow & Hhigh & Hfin).
  split; [apply Hlow; left; reflexivity|].
  split; [apply Hhigh; left; reflexivity|].
  split; [apply Hfin; left; reflexivity|].
  apply Hrun. intros n. repeat split.
Defined.

(** ** The loop is bounded *)

Lemma run_until_stop_length a env ns :
  (List.length (run_until_stop a env ns) <= List.length ns)%nat
  /\ (ns <> [] -> (1 <= List.length (run_until_stop a env ns))%nat).
Proof.
  induction ns as [|n ns [IH _]]; [split; [reflexivity|intros H; now elim H]|].
  cbn. destruct (stop_fires a env n); cbn; split; intros; lia.
Qed.

(** X10.  Whatever the measurements, the clock and the instrument do, a run
    never invokes the hybrid measurement more than [max_repeats] times, and
    invokes it at least once when [max_repeats >= 1].  The invocations are
    those of the cycles 0, 1, 2, ... in order, and in every run the one told
    not to leave the cell on is the one of cycle [max_repeats - 1], no
    other. *)
Theorem hybrid_invocations_bounded (a : args) (env : environment) :
  let calls := hybrid_calls (trace (main a env)) in
  (Z.of_nat (List.length calls) <= Z.max 0 (max_repeats a))
  /\ (1 <= max_repeats a -> (1 <= List.length calls)%nat)
  /\ (forall n d, nth_error calls n = Some d ->
        snd d = negb (Z.of_nat n =? max_repeats a - 1)).
Proof.
  intros calls. subst calls. rewrite main_hybrid_calls, length_map.
  destruct (run_until_stop_length a env (range (max_repeats a))) as [Hle Hge].
  rewrite length_range in Hle. split; [lia|]. split.
  - intros HN. apply Hge. intros E.
    apply (f_equal (@List.length Z)) in E. rewrite length_range in E.
    cbn in E. lia.
  - intros n d H. rewrite nth_error_map in H.
    destruct (nth_error _ n) as [m|] eqn:Hm; [|discriminate].
    injection H as <-.
    apply nth_error_run_until_stop, nth_error_range_seq in Hm. subst m.
    reflexivity.
Qed.

(** Ten cycles configured, the duration reached in cycle 1: two invocations,
    the second still told to leave the cell on. *)
Lemma hybrid_invocations_bounded_witness :
  let a := make_args one zero 10 false zero f0_005 one in
  hybrid_calls (trace (main a late_env)) = [(true, true); (false, true)]
  /\ (1 <= List.length (hybrid_calls (trace (main a late_env))))%nat
  /\ snd (false, true) = negb (Z.of_nat 1 =? max_repeats a - 1).
Proof.
  intros a.
  destruct (hybrid_invocations_bounded a late_env) as (_ & Hge & Hnth).
  split; [reflexivity|]. split; [apply Hge; cbn; lia|].
  apply (Hnth 1%nat). reflexivity.
Defined.
